(** * Rate limiter: token bucket, leaky bucket, shard routing and the
    admission service, embedded from the Go sources and the Lua scripts
    they send to Redis.

    Conventions of the embedding.
    - Go [int64] (and [time.Duration], which is an [int64] count of
      nanoseconds) is a [Z] kept in range by [Int64.wrap]; every Go
      arithmetic operation is written with its wrap-around.
    - A [time.Time] is the [Z] number of nanoseconds since the Unix epoch;
      [time.Now()] is an explicit argument [now] of every operation that
      reads the clock.
    - A Go integer division by zero panics: operations return in the
      [outcome] monad, whose [Panicked] is a run-time panic.
    - Lua numbers and the [float64] fields of the Go status structs are
      IEEE doubles in the program.  They are modelled by exact integers:
      the embedding follows the scripts' arithmetic, not its rounding. *)

From Stdlib Require Import ZArith Lia Bool List Ascii String.
From stdpp Require Import base option gmap strings list fin_maps pretty.

#[local] Open Scope Z_scope.

(** ** Machine integers *)

Module Int64.

Definition modulus : Z := 18446744073709551616.
Definition half : Z := 9223372036854775808.
Definition min_int : Z := -9223372036854775808.
Definition max_int : Z := 9223372036854775807.

Definition in_range (z : Z) : Prop := min_int <= z <= max_int.

(** Two's complement reduction of a mathematical integer. *)
Definition wrap (z : Z) : Z := (z + half) mod modulus - half.

Definition add (a b : Z) : Z := wrap (a + b).
Definition sub (a b : Z) : Z := wrap (a - b).
Definition mul (a b : Z) : Z := wrap (a * b).
(** Go's [/] truncates toward zero; the divisor is checked by the caller. *)
Definition quot (a b : Z) : Z := wrap (Z.quot a b).

End Int64.

(** ** Panics *)

Inductive outcome (A : Type) : Type :=
| Done (a : A)
| Panicked.
Arguments Done {A} a.
Arguments Panicked {A}.

#[global] Instance outcome_ret : MRet outcome := fun A a => Done a.
#[global] Instance outcome_bind : MBind outcome := fun A B f m =>
  match m with
  | Done a => f a
  | Panicked => Panicked
  end.

(** ** The [time] package, as far as the program uses it *)

Module time.

Definition Nanosecond : Z := 1.
Definition Millisecond : Z := 1000000.
Definition Second : Z := 1000000000.

(** [t.Sub(u)]: the difference, saturated to the range of a Duration. *)
Definition Sub (t u : Z) : Z :=
  if t - u <? Int64.min_int then Int64.min_int
  else if Int64.max_int <? t - u then Int64.max_int
  else t - u.

(** [t.Add(d)]. *)
Definition Add (t d : Z) : Z := t + d.

(** [t.UnixNano()]. *)
Definition UnixNano (t : Z) : Z := t.

End time.

(** [min] of part_002, on int64. *)
Definition min (a b : Z) : Z := if a <? b then a else b.

(** ** In-memory token bucket (fallback engine) *)

Module tokenBucket.

Record t : Type := mk {
  capacity : Z;     (* maximum number of tokens *)
  tokens : Z;       (* current number of tokens *)
  refillRate : Z;   (* Duration between two refills *)
  lastRefill : Z    (* time of the last refill *)
}.

Definition NewTokenBucket (capacity refillRate now : Z) : t :=
  {| capacity := capacity; tokens := capacity;
     refillRate := refillRate; lastRefill := now |}.

(** [refill]: one token per whole period elapsed since [lastRefill]. *)
Definition refill (now : Z) (tb : t) : outcome t :=
  let elapsed := time.Sub now (lastRefill tb) in
  if refillRate tb =? 0 then Panicked
  else
    let refillPeriods := Int64.quot elapsed (refillRate tb) in
    if 0 <? refillPeriods then
      let tokensToAdd := refillPeriods in
      let actualTimeProcessed := Int64.mul refillPeriods (refillRate tb) in
      Done {| capacity := capacity tb;
              tokens := min (capacity tb) (Int64.add (tokens tb) tokensToAdd);
              refillRate := refillRate tb;
              lastRefill := time.Add (lastRefill tb) actualTimeProcessed |}
    else Done tb.

Definition TryConsume (n : Z) (now : Z) (tb : t) : outcome (bool * t) :=
  if n <? 0 then Done (false, tb)
  else
    tb ← refill now tb;
    if n <=? tokens tb then
      Done (true, {| capacity := capacity tb;
                     tokens := Int64.sub (tokens tb) n;
                     refillRate := refillRate tb;
                     lastRefill := lastRefill tb |})
    else Done (false, tb).

(** [GetStatus] refills in place, so it returns the bucket as well. *)
Definition GetStatus (now : Z) (tb : t) : outcome ((Z * Z * Z) * t) :=
  tb ← refill now tb;
  Done ((tokens tb, capacity tb, time.Add (lastRefill tb) (refillRate tb)), tb).

End tokenBucket.

(** ** In-memory leaky bucket (fallback engine) *)

Module leakyBucket.

Record t : Type := mk {
  capacity : Z;   (* maximum queue length *)
  queue : Z;      (* current queue length *)
  leakRate : Z;   (* Duration between two leaks *)
  lastLeak : Z    (* time of the last leak *)
}.

Definition NewLeakyBucket (capacity leakRate now : Z) : t :=
  {| capacity := capacity; queue := 0;
     leakRate := leakRate; lastLeak := now |}.

(** [leak]: one queued request per whole period elapsed, while any is
    queued. *)
Definition leak (now : Z) (lb : t) : outcome t :=
  let elapsed := time.Sub now (lastLeak lb) in
  if leakRate lb =? 0 then Panicked
  else
    let leakPeriods := Int64.quot elapsed (leakRate lb) in
    if (0 <? leakPeriods) && (0 <? queue lb) then
      let requestsToLeak := min leakPeriods (queue lb) in
      Done {| capacity := capacity lb;
              queue := Int64.sub (queue lb) requestsToLeak;
              leakRate := leakRate lb;
              lastLeak := time.Add (lastLeak lb)
                            (Int64.mul requestsToLeak (leakRate lb)) |}
    else Done lb.

Definition TryAdd (n : Z) (now : Z) (lb : t) : outcome (bool * t) :=
  if n <? 0 then Done (false, lb)
  else
    lb ← leak now lb;
    if capacity lb <? Int64.add (queue lb) n then Done (false, lb)
    else
      Done (true, {| capacity := capacity lb;
                     queue := Int64.add (queue lb) n;
                     leakRate := leakRate lb;
                     lastLeak := lastLeak lb |}).

Definition GetStatus (now : Z) (lb : t) : outcome ((Z * Z * Z) * t) :=
  lb ← leak now lb;
  Done ((queue lb, capacity lb, time.Add (lastLeak lb) (leakRate lb)), lb).

End leakyBucket.

(** ** One Redis instance

    What a shard stores and how it answers.  A stored value is the JSON
    text written by a script; the embedding keeps what the two decoders
    ([cjson.decode] in Lua, [json.Unmarshal] in Go) make of it. *)

Module redis.

Inductive payload : Type :=
| Garbage (raw : string)
    (* text that neither decoder can parse *)
| TokenData (capacity tokens refill_rate_ns last_refill_ns last_updated : Z)
| LeakyData (capacity queue_length leak_rate_ns last_leak_ns last_updated : Z).

Record entry : Type := mkEntry {
  value : payload;
  expire_at : option Z   (* instant at which the key is dropped *)
}.

Record Client : Type := mkClient {
  reachable : bool;           (* false: every command errors or times out *)
  data : gmap string entry
}.

Inductive error : Type :=
| Nil          (* redis.Nil: no such key *)
| Unreachable  (* connection error or timeout *)
| ScriptError. (* a Lua error raised inside EVAL *)

(** Seconds of [EXPIRE], in nanoseconds. *)
Definition ttl (seconds : Z) : Z := seconds * 1000000000.

Definition live (now : Z) (e : entry) : bool :=
  match expire_at e with
  | None => true
  | Some d => now <? d
  end.

(** The value a [GET] sees at [now] inside the server. *)
Definition get (now : Z) (key : string) (c : Client) : option payload :=
  match data c !! key with
  | Some e => if live now e then Some (value e) else None
  | None => None
  end.

(** [SET key v] followed by [EXPIRE key seconds]. *)
Definition set_expire (now : Z) (key : string) (v : payload) (seconds : Z)
           (c : Client) : Client :=
  {| reachable := reachable c;
     data := <[key := mkEntry v (Some (now + ttl seconds))]> (data c) |}.

(** [client.Get(ctx, key).Result()]. *)
Definition Get (now : Z) (key : string) (c : Client) : error + payload :=
  if reachable c then
    match get now key c with
    | Some v => inr v
    | None => inl Nil
    end
  else inl Unreachable.

(** [client.Eval(ctx, script, keys, args...).Result()] for a script given
    as its transition on the server; a script that raises leaves the
    store as it was (it raises before its first write). *)
Definition Eval (script : Client -> option (Z * Client)) (c : Client)
  : (error + Z) * Client :=
  if reachable c then
    match script c with
    | Some (r, c') => (inr r, c')
    | None => (inl ScriptError, c)
    end
  else (inl Unreachable, c).

End redis.

(** ** Redis-backed token bucket *)

Module TokenBucketRedis.

Record t : Type := mk {
  key : string;
  capacity : Z;
  refillRate : Z
}.

Definition NewTokenBucketRedis (key : string) (capacity refillRate : Z) : t :=
  {| key := "rate_limit:token_bucket:" ++ key;
     capacity := capacity; refillRate := refillRate |}.

(** The Lua script of [TryConsume].  [None] is a Lua error. *)
Definition luaScript (bucket_key : string)
           (tokens_needed capacity refill_rate_ns now_ns : Z)
           (c : redis.Client) : option (Z * redis.Client) :=
  let bucket_data := redis.get now_ns bucket_key c in
  start ←
    match bucket_data with
    | Some (redis.TokenData _ tokens _ last_refill_ns _) =>
        Some (tokens, last_refill_ns)
    | Some _ => None   (* cjson.decode raises, or a field is nil *)
    | None => Some (capacity, now_ns)
    end;
  let '(current_tokens, last_refill_ns) := start in
  let time_passed_ns := now_ns - last_refill_ns in
  refilled ←
    (if refill_rate_ns =? 0 then
       (* x/0 is inf, nan or -inf: only +inf passes [> 0], and then
          last_refill_ns is nan, which cjson.encode refuses *)
       if 0 <? time_passed_ns then None
       else Some (current_tokens, last_refill_ns)
     else
       let tokens_to_add := time_passed_ns `div` refill_rate_ns in
       if 0 <? tokens_to_add then
         Some (Z.min capacity (current_tokens + tokens_to_add),
               last_refill_ns + tokens_to_add * refill_rate_ns)
       else Some (current_tokens, last_refill_ns));
  let '(current_tokens, last_refill_ns) := refilled in
  if tokens_needed <=? current_tokens then
    let current_tokens := current_tokens - tokens_needed in
    let updated_data :=
      redis.TokenData capacity current_tokens refill_rate_ns
                      last_refill_ns now_ns in
    Some (1, redis.set_expire now_ns bucket_key updated_data 3600 c)
  else
    let updated_data :=
      redis.TokenData capacity current_tokens refill_rate_ns
                      last_refill_ns now_ns in
    Some (0, redis.set_expire now_ns bucket_key updated_data 3600 c).

Definition TryConsume (tokens : Z) (now : Z) (tbr : t) (c : redis.Client)
  : bool * redis.Client :=
  if tokens <? 0 then (false, c)
  else
    let refillRate := refillRate tbr in
    let now := time.UnixNano now in
    match redis.Eval (luaScript (key tbr) tokens (capacity tbr) refillRate now) c with
    | (inl _, c') => (false, c')
    | (inr result, c') => (result =? 1, c')
    end.

(** What [json.Unmarshal] fills the status struct with: fields absent
    from the text keep their zero value. *)
Definition unmarshal (p : redis.payload) : option (Z * Z * Z * Z) :=
  match p with
  | redis.Garbage _ => None
  | redis.TokenData capacity tokens refill_rate_ns last_refill_ns _ =>
      Some (capacity, tokens, refill_rate_ns, last_refill_ns)
  | redis.LeakyData capacity _ _ _ _ => Some (capacity, 0, 0, 0)
  end.

Definition GetStatus (now : Z) (tbr : t) (c : redis.Client)
  : outcome (Z * Z * Z) :=
  match redis.Get now (key tbr) c with
  | inl _ => Done (capacity tbr, capacity tbr, time.Add now (refillRate tbr))
  | inr bucketData =>
      match unmarshal bucketData with
      | None => Done (capacity tbr, capacity tbr, time.Add now (refillRate tbr))
      | Some (Capacity, Tokens, RefillRateNs, lastRefillNs) =>
          let timePassed := Int64.sub (time.UnixNano now) lastRefillNs in
          if RefillRateNs =? 0 then Panicked
          else
            let tokensToAdd := Int64.quot timePassed RefillRateNs in
            let currentTokens := Int64.add Tokens tokensToAdd in
            let currentTokens :=
              if Capacity <? currentTokens then Capacity else currentTokens in
            let nextRefillTime := time.Add lastRefillNs RefillRateNs in
            Done (currentTokens, Capacity, nextRefillTime)
      end
  end.

Definition HasState (now : Z) (tbr : t) (c : redis.Client) : bool :=
  match redis.Get now (key tbr) c with
  | inl _ => false
  | inr _ => true
  end.

End TokenBucketRedis.

(** ** Redis-backed leaky bucket *)

Module LeakyBucketRedis.

Record t : Type := mk {
  key : string;
  capacity : Z;
  leakRate : Z
}.

Definition NewLeakyBucketRedis (key : string) (capacity leakRate : Z) : t :=
  {| key := "rate_limit:leaky_bucket:" ++ key;
     capacity := capacity; leakRate := leakRate |}.

(** The Lua script of [TryAdd].  [None] is a Lua error. *)
Definition luaScript (bucket_key : string)
           (requests_to_add capacity leak_rate_ns now_ns : Z)
           (c : redis.Client) : option (Z * redis.Client) :=
  let bucket_data := redis.get now_ns bucket_key c in
  start ←
    match bucket_data with
    | Some (redis.LeakyData _ queue_length _ last_leak_ns _) =>
        Some (queue_length, last_leak_ns)
    | Some _ => None   (* cjson.decode raises, or a field is nil *)
    | None => Some (0, now_ns)
    end;
  let '(current_queue, last_leak_ns) := start in
  let time_passed_ns := now_ns - last_leak_ns in
  leaked ←
    (if leak_rate_ns =? 0 then
       (* x/0 is inf, nan or -inf: only +inf passes [> 0]; it drains the
          whole queue and moves last_leak_ns by queue * 0 *)
       if (0 <? time_passed_ns) && (0 <? current_queue) then
         Some (0, last_leak_ns)
       else Some (current_queue, last_leak_ns)
     else
       let leak_periods := time_passed_ns `div` leak_rate_ns in
       if (0 <? leak_periods) && (0 <? current_queue) then
         let requests_to_leak := Z.min leak_periods current_queue in
         Some (current_queue - requests_to_leak,
               last_leak_ns + requests_to_leak * leak_rate_ns)
       else Some (current_queue, last_leak_ns));
  let '(current_queue, last_leak_ns) := leaked in
  if current_queue + requests_to_add <=? capacity then
    let current_queue := current_queue + requests_to_add in
    let updated_data :=
      redis.LeakyData capacity current_queue leak_rate_ns last_leak_ns now_ns in
    Some (1, redis.set_expire now_ns bucket_key updated_data 3600 c)
  else
    let updated_data :=
      redis.LeakyData capacity current_queue leak_rate_ns last_leak_ns now_ns in
    Some (0, redis.set_expire now_ns bucket_key updated_data 3600 c).

Definition TryAdd (requests : Z) (now : Z) (lbr : t) (c : redis.Client)
  : bool * redis.Client :=
  if requests <? 0 then (false, c)
  else
    let leakRateNs := leakRate lbr in
    let nowNs := time.UnixNano now in
    match redis.Eval (luaScript (key lbr) requests (capacity lbr) leakRateNs nowNs) c with
    | (inl _, c') => (false, c')
    | (inr result, c') => (result =? 1, c')
    end.

Definition unmarshal (p : redis.payload) : option (Z * Z * Z * Z) :=
  match p with
  | redis.Garbage _ => None
  | redis.LeakyData capacity queue_length leak_rate_ns last_leak_ns _ =>
      Some (capacity, queue_length, leak_rate_ns, last_leak_ns)
  | redis.TokenData capacity _ _ _ _ => Some (capacity, 0, 0, 0)
  end.

Definition GetStatus (now : Z) (lbr : t) (c : redis.Client)
  : outcome (Z * Z * Z) :=
  match redis.Get now (key lbr) c with
  | inl _ => Done (0, capacity lbr, time.Add now (leakRate lbr))
  | inr bucketData =>
      match unmarshal bucketData with
      | None => Done (0, capacity lbr, time.Add now (leakRate lbr))
      | Some (Capacity, QueueLength, LeakRateNs, lastLeakNs) =>
          let timePassed := Int64.sub (time.UnixNano now) lastLeakNs in
          if LeakRateNs =? 0 then Panicked
          else
            let leakPeriods := Int64.quot timePassed LeakRateNs in
            let currentQueue := Int64.sub QueueLength leakPeriods in
            let currentQueue := if currentQueue <? 0 then 0 else currentQueue in
            let nextLeakTime := time.Add lastLeakNs LeakRateNs in
            Done (currentQueue, Capacity, nextLeakTime)
      end
  end.

Definition HasState (now : Z) (lbr : t) (c : redis.Client) : bool :=
  match redis.Get now (key lbr) c with
  | inl _ => false
  | inr _ => true
  end.

End LeakyBucketRedis.

(** ** hash/crc32 *)

Module crc32.

(** One bit of the reflected CRC-32 (IEEE polynomial 0xedb88320). *)
Definition step (crc : Z) : Z :=
  if Z.testbit crc 0 then Z.lxor (Z.shiftr crc 1) 3988292384
  else Z.shiftr crc 1.

Definition update_byte (crc : Z) (b : ascii) : Z :=
  let crc := Z.lxor crc (Z.of_N (N_of_ascii b)) in
  step (step (step (step (step (step (step (step crc))))))).

Fixpoint update (crc : Z) (p : string) : Z :=
  match p with
  | EmptyString => crc
  | String b p => update (update_byte crc b) p
  end.

Definition ChecksumIEEE (data : string) : Z :=
  Z.lxor (update 4294967295 data) 4294967295.

End crc32.

(** The range of a Go [uint32]. *)
Definition uint32 (z : Z) : Prop := 0 <= z < 2 ^ 32.

(** ** Shard router *)

Module RedisManager.

Record t : Type := mk {
  clients : list redis.Client
}.

(** [GetClient] returns the address of a slice element: [Some index]
    stands for [&rm.clients[index]], [None] for a nil pointer.  [int] is
    64 bits wide, so the conversion of the uint32 hash is exact. *)
Definition GetClient (userID : string) (rm : t) : outcome (option nat) :=
  let hash := crc32.ChecksumIEEE userID in
  if Z.of_nat (length (clients rm)) =? 0 then Panicked
  else
    let index := Z.rem hash (Z.of_nat (length (clients rm))) in
    if (0 <=? index) && (index <? Z.of_nat (length (clients rm)))
    then Done (Some (Z.to_nat index))
    else Panicked.

Definition GetClientIndex (userID : string) (rm : t) : outcome Z :=
  let hash := crc32.ChecksumIEEE userID in
  if Z.of_nat (length (clients rm)) =? 0 then Panicked
  else Done (Z.rem hash (Z.of_nat (length (clients rm)))).

End RedisManager.

(** ** Configuration, metrics and response models *)

Module config.

Record Config : Type := mk {
  DefaultCapacity : Z;
  DefaultRefill : Z
}.

End config.

Module MetricsCollector.

Record t : Type := mk {
  totalRequests : Z;
  successfulRequests : Z;
  rateLimitedRequests : Z;
  errorRequests : Z
}.

Definition NewMetricsCollector : t := mk 0 0 0 0.

(** The response time, a reading of the wall clock, is left out. *)
Definition RecordRequest (success rateLimited : bool) (mc : t) : t :=
  let mc := mk (Int64.add (totalRequests mc) 1) (successfulRequests mc)
               (rateLimitedRequests mc) (errorRequests mc) in
  if success then
    mk (totalRequests mc) (Int64.add (successfulRequests mc) 1)
       (rateLimitedRequests mc) (errorRequests mc)
  else if rateLimited then
    mk (totalRequests mc) (successfulRequests mc)
       (Int64.add (rateLimitedRequests mc) 1) (errorRequests mc)
  else
    mk (totalRequests mc) (successfulRequests mc)
       (rateLimitedRequests mc) (Int64.add (errorRequests mc) 1).

End MetricsCollector.

Module models.

Record AcquireRequest : Type := mkAcquireRequest {
  Key : string;
  Tokens : Z;
  ReqAlgorithm : string
}.

Record AlgorithmStatus : Type := mkAlgorithmStatus {
  Algorithm : string;
  TokensLeft : Z;
  Capacity : Z;
  RefillRate : Z;
  NextRefillTime : Z;
  IsBlocked : bool;
  HasState : bool
}.

Record StatusResponse : Type := mkStatusResponse {
  RespKey : string;
  RespAlgorithm : string;
  RespTokensLeft : Z;
  RespCapacity : Z;
  RespRefillRate : Z;
  RespNextRefillTime : Z;
  RespIsBlocked : bool;
  TokenBucketStatus : option AlgorithmStatus;   (* nil when absent *)
  LeakyBucketStatus : option AlgorithmStatus
}.

End models.

(** ** Admission service *)

Module RedisRateLimiterService.

Import models.

Record t : Type := mk {
  redisManager : RedisManager.t;
  config : config.Config;
  metrics : MetricsCollector.t;
  (* in-memory fallback *)
  tokenBuckets : gmap string tokenBucket.t;
  leakyBuckets : gmap string leakyBucket.t
}.

Definition NewRedisRateLimiterService (cfg : config.Config)
           (instances : list redis.Client) : t :=
  {| redisManager := RedisManager.mk instances;
     config := cfg;
     metrics := MetricsCollector.NewMetricsCollector;
     tokenBuckets := ∅;
     leakyBuckets := ∅ |}.

Definition DefaultCapacity (rrs : t) : Z := config.DefaultCapacity (config rrs).
Definition DefaultRefill (rrs : t) : Z := config.DefaultRefill (config rrs).

(** Reading through a client pointer, and storing what a call did to
    the instance behind it. *)
Definition deref (i : nat) (rrs : t) : outcome redis.Client :=
  match RedisManager.clients (redisManager rrs) !! i with
  | Some c => Done c
  | None => Panicked
  end.

Definition store (i : nat) (c : redis.Client) (rrs : t) : t :=
  {| redisManager :=
       RedisManager.mk (<[i := c]> (RedisManager.clients (redisManager rrs)));
     config := config rrs;
     metrics := metrics rrs;
     tokenBuckets := tokenBuckets rrs;
     leakyBuckets := leakyBuckets rrs |}.

Definition set_tokenBuckets (m : gmap string tokenBucket.t) (rrs : t) : t :=
  {| redisManager := redisManager rrs; config := config rrs;
     metrics := metrics rrs; tokenBuckets := m;
     leakyBuckets := leakyBuckets rrs |}.

Definition set_leakyBuckets (m : gmap string leakyBucket.t) (rrs : t) : t :=
  {| redisManager := redisManager rrs; config := config rrs;
     metrics := metrics rrs; tokenBuckets := tokenBuckets rrs;
     leakyBuckets := m |}.

Definition set_metrics (mc : MetricsCollector.t) (rrs : t) : t :=
  {| redisManager := redisManager rrs; config := config rrs;
     metrics := mc; tokenBuckets := tokenBuckets rrs;
     leakyBuckets := leakyBuckets rrs |}.

(** The maps hold pointers: the bucket returned is the one in the map,
    and what a call does to it is written back under the same key. *)
Definition getOrCreateTokenBucket (key : string) (now : Z) (rrs : t)
  : tokenBucket.t * t :=
  match tokenBuckets rrs !! key with
  | Some bucket => (bucket, rrs)
  | None =>
      let bucket :=
        tokenBucket.NewTokenBucket (DefaultCapacity rrs) (DefaultRefill rrs) now in
      (bucket, set_tokenBuckets (<[key := bucket]> (tokenBuckets rrs)) rrs)
  end.

Definition getOrCreateLeakyBucket (key : string) (now : Z) (rrs : t)
  : leakyBucket.t * t :=
  match leakyBuckets rrs !! key with
  | Some bucket => (bucket, rrs)
  | None =>
      let bucket :=
        leakyBucket.NewLeakyBucket (DefaultCapacity rrs) (DefaultRefill rrs) now in
      (bucket, set_leakyBuckets (<[key := bucket]> (leakyBuckets rrs)) rrs)
  end.

Definition acquireInMemoryFallback (key : string) (tokens : Z)
           (algorithm : string) (now : Z) (rrs : t) : outcome (bool * t) :=
  if String.eqb algorithm "leaky_bucket" then
    let '(bucket, rrs) := getOrCreateLeakyBucket key now rrs in
    '(r, bucket) ← leakyBucket.TryAdd tokens now bucket;
    Done (r, set_leakyBuckets (<[key := bucket]> (leakyBuckets rrs)) rrs)
  else
    let '(bucket, rrs) := getOrCreateTokenBucket key now rrs in
    '(r, bucket) ← tokenBucket.TryConsume tokens now bucket;
    Done (r, set_tokenBuckets (<[key := bucket]> (tokenBuckets rrs)) rrs).

(** The remote half of [Acquire], on the instance behind the pointer. *)
Definition acquireRedis (key : string) (tokens : Z) (algorithm : string)
           (now : Z) (rrs : t) (c : redis.Client) : bool * redis.Client :=
  if String.eqb algorithm "leaky_bucket" then
    let leakyBucketRedis :=
      LeakyBucketRedis.NewLeakyBucketRedis key (DefaultCapacity rrs) (DefaultRefill rrs) in
    LeakyBucketRedis.TryAdd tokens now leakyBucketRedis c
  else
    let tokenBucketRedis :=
      TokenBucketRedis.NewTokenBucketRedis key (DefaultCapacity rrs) (DefaultRefill rrs) in
    TokenBucketRedis.TryConsume tokens now tokenBucketRedis c.

Definition Acquire (key : string) (tokens : Z) (algorithm : string)
           (now : Z) (rrs : t) : outcome (bool * t) :=
  client ← RedisManager.GetClient key (redisManager rrs);
  '(result, rateLimited, rrs) ←
    match client with
    | None =>
        '(result, rrs) ← acquireInMemoryFallback key tokens algorithm now rrs;
        Done (result, negb result, rrs)
    | Some i =>
        c ← deref i rrs;
        let '(result, c) := acquireRedis key tokens algorithm now rrs c in
        Done (result, negb result, store i c rrs)
    end;
  Done (result,
        set_metrics (MetricsCollector.RecordRequest result rateLimited (metrics rrs)) rrs).

Definition defaultStatus (algorithm : string) (now : Z) (rrs : t)
  : AlgorithmStatus :=
  {| Algorithm := algorithm;
     TokensLeft := DefaultCapacity rrs;
     Capacity := DefaultCapacity rrs;
     RefillRate := DefaultRefill rrs;
     NextRefillTime := time.Add now (DefaultRefill rrs);
     IsBlocked := false;
     HasState := false |}.

Definition getInMemoryTokenBucketStatus (key : string) (now : Z) (rrs : t)
  : outcome (AlgorithmStatus * t) :=
  match tokenBuckets rrs !! key with
  | Some bucket =>
      '(tokensLeft, capacity, nextRefill, bucket) ← tokenBucket.GetStatus now bucket;
      Done ({| Algorithm := "token_bucket";
               TokensLeft := tokensLeft;
               Capacity := capacity;
               RefillRate := DefaultRefill rrs;
               NextRefillTime := nextRefill;
               IsBlocked := tokensLeft =? 0;
               HasState := true |},
            set_tokenBuckets (<[key := bucket]> (tokenBuckets rrs)) rrs)
  | None => Done (defaultStatus "token_bucket" now rrs, rrs)
  end.

Definition getInMemoryLeakyBucketStatus (key : string) (now : Z) (rrs : t)
  : outcome (AlgorithmStatus * t) :=
  match leakyBuckets rrs !! key with
  | Some bucket =>
      '(queueLength, capacity, nextLeak, bucket) ← leakyBucket.GetStatus now bucket;
      Done ({| Algorithm := "leaky_bucket";
               TokensLeft := Int64.sub capacity queueLength;
               Capacity := capacity;
               RefillRate := DefaultRefill rrs;
               NextRefillTime := nextLeak;
               IsBlocked := capacity <=? queueLength;
               HasState := true |},
            set_leakyBuckets (<[key := bucket]> (leakyBuckets rrs)) rrs)
  | None => Done (defaultStatus "leaky_bucket" now rrs, rrs)
  end.

Definition getTokenBucketStatus (key : string) (now : Z) (rrs : t)
  : outcome (AlgorithmStatus * t) :=
  client ← RedisManager.GetClient key (redisManager rrs);
  match client with
  | None => getInMemoryTokenBucketStatus key now rrs
  | Some i =>
      c ← deref i rrs;
      let tokenBucketRedis :=
        TokenBucketRedis.NewTokenBucketRedis key (DefaultCapacity rrs) (DefaultRefill rrs) in
      if negb (TokenBucketRedis.HasState now tokenBucketRedis c) then
        Done (defaultStatus "token_bucket" now rrs, rrs)
      else
        '(tokensLeft, capacity, nextRefill) ←
          TokenBucketRedis.GetStatus now tokenBucketRedis c;
        Done ({| Algorithm := "token_bucket";
                 TokensLeft := tokensLeft;
                 Capacity := capacity;
                 RefillRate := DefaultRefill rrs;
                 NextRefillTime := nextRefill;
                 IsBlocked := tokensLeft =? 0;
                 HasState := true |}, rrs)
  end.

Definition getLeakyBucketStatus (key : string) (now : Z) (rrs : t)
  : outcome (AlgorithmStatus * t) :=
  client ← RedisManager.GetClient key (redisManager rrs);
  match client with
  | None => getInMemoryLeakyBucketStatus key now rrs
  | Some i =>
      c ← deref i rrs;
      let leakyBucketRedis :=
        LeakyBucketRedis.NewLeakyBucketRedis key (DefaultCapacity rrs) (DefaultRefill rrs) in
      if negb (LeakyBucketRedis.HasState now leakyBucketRedis c) then
        Done (defaultStatus "leaky_bucket" now rrs, rrs)
      else
        '(queueLength, capacity, nextLeak) ←
          LeakyBucketRedis.GetStatus now leakyBucketRedis c;
        let availableSpace := Int64.sub capacity queueLength in
        Done ({| Algorithm := "leaky_bucket";
                 TokensLeft := availableSpace;
                 Capacity := capacity;
                 RefillRate := DefaultRefill rrs;
                 NextRefillTime := nextLeak;
                 IsBlocked := capacity <=? queueLength;
                 HasState := true |}, rrs)
  end.

(** The tie-break of [GetStatus] on the two per-algorithm statuses. *)
Definition selectPrimary (tokenBucketStatus leakyBucketStatus : AlgorithmStatus)
  : string * AlgorithmStatus :=
  if HasState tokenBucketStatus && HasState leakyBucketStatus then
    if TokensLeft tokenBucketStatus <? Capacity tokenBucketStatus then
      ("token_bucket"%string, tokenBucketStatus)
    else if TokensLeft leakyBucketStatus <? Capacity leakyBucketStatus then
      ("leaky_bucket"%string, leakyBucketStatus)
    else ("token_bucket"%string, tokenBucketStatus)
  else if HasState tokenBucketStatus then
    ("token_bucket"%string, tokenBucketStatus)
  else if HasState leakyBucketStatus then
    ("leaky_bucket"%string, leakyBucketStatus)
  else ("token_bucket"%string, tokenBucketStatus).

Definition GetStatus (key : string) (now : Z) (rrs : t)
  : outcome (StatusResponse * t) :=
  '(tokenBucketStatus, rrs) ← getTokenBucketStatus key now rrs;
  '(leakyBucketStatus, rrs) ← getLeakyBucketStatus key now rrs;
  let '(primaryAlgorithm, primaryStatus) :=
    selectPrimary tokenBucketStatus leakyBucketStatus in
  Done ({| RespKey := key;
           RespAlgorithm := primaryAlgorithm;
           RespTokensLeft := TokensLeft primaryStatus;
           RespCapacity := Capacity primaryStatus;
           RespRefillRate := RefillRate primaryStatus;
           RespNextRefillTime := NextRefillTime primaryStatus;
           RespIsBlocked := IsBlocked primaryStatus;
           TokenBucketStatus :=
             if HasState tokenBucketStatus then Some tokenBucketStatus else None;
           LeakyBucketStatus :=
             if HasState leakyBucketStatus then Some leakyBucketStatus else None |},
        rrs).

End RedisRateLimiterService.

(** ** HTTP boundary *)

Module Handlers.

(** What the handler reads of a request: the method, the user id the
    JWT middleware left in the context (empty when absent) and the
    decoded JSON body ([None] when decoding fails). *)
Record Request : Type := mkRequest {
  Method : string;
  UserID : string;
  Body : option models.AcquireRequest
}.

Inductive Response : Type :=
| SendError (status : Z) (message : string)
| SendAcquireSuccess
| SendRateLimited.

Definition AcquireHandler (r : Request) (now : Z)
           (RateLimiter : RedisRateLimiterService.t)
  : outcome (Response * RedisRateLimiterService.t) :=
  if negb (String.eqb (Method r) "POST") then
    Done (SendError 405 "Only POST method allowed", RateLimiter)
  else
    let userID := UserID r in
    if String.eqb userID "" then
      Done (SendError 500 "Internal server error", RateLimiter)
    else
      match Body r with
      | None => Done (SendError 400 "Invalid JSON body", RateLimiter)
      | Some req =>
          let Key := userID in
          let Tokens := if models.Tokens req <=? 0 then 1 else models.Tokens req in
          let Algorithm :=
            if String.eqb (models.ReqAlgorithm req) "" then "token_bucket"%string
            else models.ReqAlgorithm req in
          '(allowed, RateLimiter) ←
            RedisRateLimiterService.Acquire Key Tokens Algorithm now RateLimiter;
          if allowed : bool then Done (SendAcquireSuccess, RateLimiter)
          else Done (SendRateLimited, RateLimiter)
      end.

End Handlers.

(** ** Scenarios and traces *)

(** The level stored for a key on an instance, as the scripts read it. *)
Definition storedLevel (now : Z) (key : string) (c : redis.Client) : option Z :=
  match redis.get now key c with
  | Some (redis.TokenData _ tokens _ _ _) => Some tokens
  | Some (redis.LeakyData _ queue_length _ _ _) => Some queue_length
  | _ => None
  end.

(** The level stored for [key] on the only instance of a service. *)
Definition shardLevel (now : Z) (key : string) (rrs : RedisRateLimiterService.t)
  : option Z :=
  c ← RedisManager.clients (RedisRateLimiterService.redisManager rrs) !! 0%nat;
  storedLevel now key c.

(** A service over one reachable, empty instance. *)
Definition freshService (capacity period : Z) : RedisRateLimiterService.t :=
  RedisRateLimiterService.NewRedisRateLimiterService
    (config.mk capacity period) [redis.mkClient true ∅].

(** Scenario of the token bucket, capacity 10 and period 1s, on the
    in-memory engine: outcome and level of each step. *)
Definition tokenScenarioLocal : outcome (bool * Z * (bool * Z) * Z * (bool * Z)) :=
  let b := tokenBucket.NewTokenBucket 10 time.Second 0 in
  '(r1, b) ← tokenBucket.TryConsume 5 0 b;
  let l1 := tokenBucket.tokens b in
  '(r2, b) ← tokenBucket.TryConsume 6 0 b;
  let l2 := tokenBucket.tokens b in
  '(tokensLeft, _, _, b) ← tokenBucket.GetStatus (3 * time.Second) b;
  '(r3, b) ← tokenBucket.TryConsume 8 (3 * time.Second) b;
  Done (r1, l1, (r2, l2), tokensLeft, (r3, tokenBucket.tokens b)).

(** The same scenario through [Acquire] and [GetStatus] on a reachable
    shard; levels are read from the stored record. *)
Definition tokenScenarioRemote
  : outcome (bool * option Z * (bool * option Z) * Z * (bool * option Z)) :=
  let key := "rate_limit:token_bucket:user"%string in
  let s := freshService 10 time.Second in
  '(r1, s) ← RedisRateLimiterService.Acquire "user" 5 "token_bucket" 0 s;
  let l1 := shardLevel 0 key s in
  '(r2, s) ← RedisRateLimiterService.Acquire "user" 6 "token_bucket" 0 s;
  let l2 := shardLevel 0 key s in
  '(status, s) ← RedisRateLimiterService.GetStatus "user" (3 * time.Second) s;
  '(r3, s) ← RedisRateLimiterService.Acquire "user" 8 "token_bucket" (3 * time.Second) s;
  Done (r1, l1, (r2, l2), models.RespTokensLeft status,
        (r3, shardLevel (3 * time.Second) key s)).

(** Scenario of the leaky bucket, capacity 5 and period 200ms, on the
    in-memory engine: outcome and queue of each step, then the status
    after 400ms (queue length, available space). *)
Definition leakyScenarioLocal : outcome (bool * Z * (bool * Z) * (Z * Z)) :=
  let b := leakyBucket.NewLeakyBucket 5 (200 * time.Millisecond) 0 in
  '(r1, b) ← leakyBucket.TryAdd 5 0 b;
  let l1 := leakyBucket.queue b in
  '(r2, b) ← leakyBucket.TryAdd 1 0 b;
  let l2 := leakyBucket.queue b in
  '(queueLength, capacity, _, b) ← leakyBucket.GetStatus (400 * time.Millisecond) b;
  Done (r1, l1, (r2, l2), (queueLength, capacity - queueLength)).

(** The same scenario through [Acquire] and [GetStatus] on a reachable
    shard. *)
Definition leakyScenarioRemote
  : outcome (bool * option Z * (bool * option Z) * (Z * Z)) :=
  let key := "rate_limit:leaky_bucket:user"%string in
  let s := freshService 5 (200 * time.Millisecond) in
  '(r1, s) ← RedisRateLimiterService.Acquire "user" 5 "leaky_bucket" 0 s;
  let l1 := shardLevel 0 key s in
  '(r2, s) ← RedisRateLimiterService.Acquire "user" 1 "leaky_bucket" 0 s;
  let l2 := shardLevel 0 key s in
  c ← RedisRateLimiterService.deref 0 s;
  '(queueLength, _, _) ←
    LeakyBucketRedis.GetStatus (400 * time.Millisecond)
      (LeakyBucketRedis.NewLeakyBucketRedis "user" 5 (200 * time.Millisecond)) c;
  '(status, s) ← RedisRateLimiterService.GetStatus "user" (400 * time.Millisecond) s;
  Done (r1, l1, (r2, l2), (queueLength, models.RespTokensLeft status)).

(** A POST to /acquire by "user" asking for [tokens] permits of the token
    bucket, on a fresh service of capacity 10: the response and the level
    left on the shard. *)
Definition handlerScenario (tokens : Z) : outcome (Handlers.Response * option Z) :=
  let r := Handlers.mkRequest "POST" "user"
             (Some (models.mkAcquireRequest "" tokens "token_bucket")) in
  '(response, s) ← Handlers.AcquireHandler r 0 (freshService 10 time.Second);
  Done (response, shardLevel 0 "rate_limit:token_bucket:user" s).

(** What a caller can observe of an admission through the service: the
    answer, how many buckets each fallback map holds, and how many
    requests were counted as rate-limited. *)
Definition observeAcquire (r : outcome (bool * RedisRateLimiterService.t))
  : outcome (bool * nat * nat * Z) :=
  '(allowed, s) ← r;
  Done (allowed,
        size (RedisRateLimiterService.tokenBuckets s),
        size (RedisRateLimiterService.leakyBuckets s),
        MetricsCollector.rateLimitedRequests (RedisRateLimiterService.metrics s)).

(** The value stored under [key] on the only instance of a service. *)
Definition shardPayload (now : Z) (key : string) (rrs : RedisRateLimiterService.t)
  : option redis.payload :=
  c ← RedisManager.clients (RedisRateLimiterService.redisManager rrs) !! 0%nat;
  redis.get now key c.

(** A service over one unreachable instance, as a test with an invalid
    address builds it. *)
Definition unreachableService : RedisRateLimiterService.t :=
  RedisRateLimiterService.NewRedisRateLimiterService
    (config.mk 100 time.Second) [redis.mkClient false ∅].

(** A service whose only instance holds unparsable text under both
    bucket keys of "user". *)
Definition corruptService : RedisRateLimiterService.t :=
  let raw := redis.mkEntry (redis.Garbage "{not json") None in
  RedisRateLimiterService.NewRedisRateLimiterService
    (config.mk 100 time.Second)
    [redis.mkClient true
       (<["rate_limit:token_bucket:user"%string := raw]>
          (<["rate_limit:leaky_bucket:user"%string := raw]> ∅))].

(** Answer of an admission on [corruptService] and what the shard holds
    under [key] afterwards. *)
Definition corruptAcquire (algorithm key : string)
  : outcome (bool * option redis.payload) :=
  '(allowed, s) ←
    RedisRateLimiterService.Acquire "user" 1 algorithm 0 corruptService;
  Done (allowed, shardPayload 0 key s).

(** Summary fields of a status query on [corruptService]. *)
Definition corruptStatus : outcome (Z * Z * bool) :=
  '(status, _) ← RedisRateLimiterService.GetStatus "user" 0 corruptService;
  Done (models.RespTokensLeft status, models.RespCapacity status,
        models.RespIsBlocked status).

(** ** Traces of the two engines

    A trace runs a list of operations, each a request size with the clock
    reading of its call, on one engine and records, per operation, the
    answer and the level afterwards. *)

Fixpoint runTokenLocal (ops : list (Z * Z)) (tb : tokenBucket.t)
  : outcome (list (bool * option Z)) :=
  match ops with
  | [] => Done []
  | (n, now) :: ops =>
      '(r, tb) ← tokenBucket.TryConsume n now tb;
      rest ← runTokenLocal ops tb;
      Done ((r, Some (tokenBucket.tokens tb)) :: rest)
  end.

Fixpoint runTokenRemote (ops : list (Z * Z)) (tbr : TokenBucketRedis.t)
         (c : redis.Client) : list (bool * option Z) :=
  match ops with
  | [] => []
  | (n, now) :: ops =>
      let '(r, c) := TokenBucketRedis.TryConsume n now tbr c in
      (r, storedLevel now (TokenBucketRedis.key tbr) c) :: runTokenRemote ops tbr c
  end.

Fixpoint runLeakyLocal (ops : list (Z * Z)) (lb : leakyBucket.t)
  : outcome (list (bool * option Z)) :=
  match ops with
  | [] => Done []
  | (n, now) :: ops =>
      '(r, lb) ← leakyBucket.TryAdd n now lb;
      rest ← runLeakyLocal ops lb;
      Done ((r, Some (leakyBucket.queue lb)) :: rest)
  end.

Fixpoint runLeakyRemote (ops : list (Z * Z)) (lbr : LeakyBucketRedis.t)
         (c : redis.Client) : list (bool * option Z) :=
  match ops with
  | [] => []
  | (n, now) :: ops =>
      let '(r, c) := LeakyBucketRedis.TryAdd n now lbr c in
      (r, storedLevel now (LeakyBucketRedis.key lbr) c) :: runLeakyRemote ops lbr c
  end.

(** The in-memory bucket of a key is created by the first call for it,
    at that call's clock reading. *)
Definition tokenLocalTrace (capacity period : Z) (ops : list (Z * Z))
  : outcome (list (bool * option Z)) :=
  match ops with
  | [] => Done []
  | (_, t0) :: _ =>
      runTokenLocal ops (tokenBucket.NewTokenBucket capacity period t0)
  end.

Definition leakyLocalTrace (capacity period : Z) (ops : list (Z * Z))
  : outcome (list (bool * option Z)) :=
  match ops with
  | [] => Done []
  | (_, t0) :: _ =>
      runLeakyLocal ops (leakyBucket.NewLeakyBucket capacity period t0)
  end.

(** Each operation is made before the record written by the one before
    it expires. *)
Fixpoint spaced (prev : Z) (ops : list (Z * Z)) : Prop :=
  match ops with
  | [] => True
  | (_, now) :: ops => now < prev + redis.ttl 3600 /\ spaced now ops
  end.

(** Request sizes and clock readings of a trace stay below 2^62. *)
Definition bounded (ops : list (Z * Z)) : Prop :=
  Forall (fun op => 0 <= fst op < 2 ^ 62 /\ 0 <= snd op < 2 ^ 62) ops.

(** The shard holds, under [key], the state of the in-memory bucket,
    written at [prev] with the expiry the scripts set. *)
Definition tokenSynced (key : string) (prev : Z) (tb : tokenBucket.t)
           (c : redis.Client) : Prop :=
  redis.reachable c = true
  /\ redis.data c !! key
     = Some (redis.mkEntry
               (redis.TokenData (tokenBucket.capacity tb) (tokenBucket.tokens tb)
                  (tokenBucket.refillRate tb) (tokenBucket.lastRefill tb) prev)
               (Some (prev + redis.ttl 3600))).

Definition leakySynced (key : string) (prev : Z) (lb : leakyBucket.t)
           (c : redis.Client) : Prop :=
  redis.reachable c = true
  /\ redis.data c !! key
     = Some (redis.mkEntry
               (redis.LeakyData (leakyBucket.capacity lb) (leakyBucket.queue lb)
                  (leakyBucket.leakRate lb) (leakyBucket.lastLeak lb) prev)
               (Some (prev + redis.ttl 3600))).

(** Every operation after the first is made before the record written by
    the operation before it expires. *)
Definition spacedTrace (ops : list (Z * Z)) : Prop :=
  match ops with
  | [] => True
  | (_, t0) :: rest => spaced t0 rest
  end.

(** ** Observations used by the further properties *)

(** Clock readings of a trace lie in [0, 2^62). *)
Definition clocked (ops : list (Z * Z)) : Prop :=
  Forall (fun op => 0 <= snd op < 2 ^ 62) ops.

(** Every level recorded in a trace lies in [0, capacity]; a step that
    found and left no record has no level. *)
Definition levelsWithin (capacity : Z) (trace : list (bool * option Z)) : Prop :=
  Forall (fun step =>
            match snd step with
            | Some level => 0 <= level <= capacity
            | None => True
            end) trace.

(** What the shard holds under [key] is nothing, or a token-bucket record
    whose level lies in [0, capacity]. *)
Definition tokenRecordOk (key : string) (capacity : Z) (c : redis.Client) : Prop :=
  match redis.data c !! key with
  | None => True
  | Some e =>
      match redis.value e with
      | redis.TokenData _ tokens _ _ _ => 0 <= tokens <= capacity
      | _ => False
      end
  end.

Definition leakyRecordOk (key : string) (capacity : Z) (c : redis.Client) : Prop :=
  match redis.data c !! key with
  | None => True
  | Some e =>
      match redis.value e with
      | redis.LeakyData _ queue_length _ _ _ => 0 <= queue_length <= capacity
      | _ => False
      end
  end.

(** The key under which [Acquire] keeps the bucket of [key] for
    [algorithm] on the shard. *)
Definition bucketKey (algorithm key : string) : string :=
  if String.eqb algorithm "leaky_bucket"
  then LeakyBucketRedis.key (LeakyBucketRedis.NewLeakyBucketRedis key 0 0)
  else TokenBucketRedis.key (TokenBucketRedis.NewTokenBucketRedis key 0 0).

(** Number of admitted operations of a trace. *)
Fixpoint admitted (trace : list (bool * option Z)) : nat :=
  match trace with
  | [] => 0%nat
  | (true, _) :: trace => S (admitted trace)
  | (false, _) :: trace => admitted trace
  end.

(** ** Reports of the shard router *)

Module fmt.

(** [fmt.Sprintf(prefix + "%d", i)]: the prefix followed by the decimal
  digits of [i]. *)
Definition Sprintf_d (prefix : string) (i : Z) : string := prefix +:+ pretty i.

End fmt.

Module RedisManagerReports.

(** The loop of [GetHealthStatus] from index [i] on; a ping succeeds
  exactly on a reachable instance.  Slice indices stay below 2^63. *)
Fixpoint healthFrom (i : Z) (clients : list redis.Client)
       (status : gmap string bool) : gmap string bool :=
match clients with
| [] => status
| client :: clients =>
    healthFrom (i + 1) clients
      (<[fmt.Sprintf_d "redis-" (i + 1) := redis.reachable client]> status)
end.

Definition GetHealthStatus (rm : RedisManager.t) : gmap string bool :=
healthFrom 0 (RedisManager.clients rm) ∅.

(** [counts[redisName]++] on a map of int. *)
Definition increment (redisName : string) (counts : gmap string Z) : gmap string Z :=
<[redisName := Int64.add (default 0 (counts !! redisName)) 1]> counts.

Fixpoint distributionFrom (userIDs : list string) (rm : RedisManager.t)
       (counts : gmap string Z) : outcome (gmap string Z) :=
match userIDs with
| [] => Done counts
| userID :: userIDs =>
    index ← RedisManager.GetClientIndex userID rm;
    let redisName := fmt.Sprintf_d "redis-" (Int64.add index 1) in
    distributionFrom userIDs rm (increment redisName counts)
end.

Definition GetDistributionCount (userIDs : list string) (rm : RedisManager.t)
: outcome (gmap string Z) :=
distributionFrom userIDs rm ∅.

End RedisManagerReports.

(** A count read from a Go map: 0 for an absent key. *)
Definition lookup0 (counts : gmap string Z) (name : string) : Z :=
  default 0 (counts !! name).

(** Number of the user ids that hash to shard [i] of [N]. *)
Fixpoint routedTo (i N : Z) (userIDs : list string) : Z :=
  match userIDs with
  | [] => 0
  | userID :: userIDs =>
      (if crc32.ChecksumIEEE userID mod N =? i then 1 else 0) + routedTo i N userIDs
  end.

(** ** Methods of the request and response models *)

Module AcquireRequest.

(** [Validate] sets defaults in place and returns nil; the request after
  the call is returned. *)
Definition Validate (ar : models.AcquireRequest) : models.AcquireRequest :=
let Tokens := if models.Tokens ar <=? 0 then 1 else models.Tokens ar in
let Algorithm :=
  if String.eqb (models.ReqAlgorithm ar) "" then "token_bucket"%string
  else models.ReqAlgorithm ar in
let Algorithm :=
  if negb (String.eqb Algorithm "token_bucket")
     && negb (String.eqb Algorithm "leaky_bucket")
  then "token_bucket"%string else Algorithm in
models.mkAcquireRequest (models.Key ar) Tokens Algorithm.

End AcquireRequest.

Module StatusResponse.

Definition hasState (s : option models.AlgorithmStatus) : bool :=
match s with
| Some a => models.HasState a
| None => false
end.

Definition IsMultiAlgorithm (sr : models.StatusResponse) : bool :=
match models.TokenBucketStatus sr, models.LeakyBucketStatus sr with
| Some _, Some _ => true
| _, _ => false
end.

Definition GetAlgorithmCount (sr : models.StatusResponse) : Z :=
let count := 0 in
let count := if hasState (models.TokenBucketStatus sr) then count + 1 else count in
let count := if hasState (models.LeakyBucketStatus sr) then count + 1 else count in
count.

Definition GetActiveAlgorithms (sr : models.StatusResponse) : list string :=
let algorithms := [] in
let algorithms :=
  if hasState (models.TokenBucketStatus sr)
  then algorithms ++ ["token_bucket"%string] else algorithms in
let algorithms :=
  if hasState (models.LeakyBucketStatus sr)
  then algorithms ++ ["leaky_bucket"%string] else algorithms in
algorithms.

Definition HasTokenBucketState (sr : models.StatusResponse) : bool :=
hasState (models.TokenBucketStatus sr).

Definition HasLeakyBucketState (sr : models.StatusResponse) : bool :=
hasState (models.LeakyBucketStatus sr).

End StatusResponse.

(** ** The status endpoint *)

Module StatusHandlers.

Inductive Response : Type :=
| SendError (status : Z) (message : string)
| SendJSON (status : Z) (body : models.StatusResponse).

(** [StatusHandler] reads the method and the user id of the request. *)
Definition StatusHandler (r : Handlers.Request) (now : Z)
         (RateLimiter : RedisRateLimiterService.t)
: outcome (Response * RedisRateLimiterService.t) :=
if negb (String.eqb (Handlers.Method r) "GET") then
  Done (SendError 405 "Only GET method allowed", RateLimiter)
else
  let userID := Handlers.UserID r in
  if String.eqb userID "" then
    Done (SendError 500 "Internal server error", RateLimiter)
  else
    '(response, RateLimiter) ←
      RedisRateLimiterService.GetStatus userID now RateLimiter;
    Done (SendJSON 200 response, RateLimiter).

End StatusHandlers.

(** ** main *)

Module main.

(** [maskSecret]; a Go string is indexed by byte. *)
Definition maskSecret (secret : string) : string :=
if (String.length secret <=? 6)%nat then "****"%string
else (substring 0 3 secret ++ "****"
      ++ substring (String.length secret - 3) 3 secret)%string.

End main.

(** * Verification *)

(** ** Machine integers *)

Lemma wrap_id z : Int64.in_range z -> Int64.wrap z = z.
Proof.
  unfold Int64.in_range, Int64.wrap, Int64.min_int, Int64.max_int, Int64.half, Int64.modulus. intros H.
  rewrite Z.mod_small by lia. lia.
Qed.

Lemma wrap_in_range z : Int64.in_range (Int64.wrap z).
Proof.
  unfold Int64.in_range, Int64.wrap, Int64.min_int, Int64.max_int, Int64.half, Int64.modulus.
  pose proof (Z.mod_pos_bound (z + 9223372036854775808) 18446744073709551616).
  lia.
Qed.

Lemma min_spec a b : min a b = Z.min a b.
Proof. unfold min. destruct (Z.ltb_spec a b); lia. Qed.

(** ** Arithmetic in range *)

Section InRange.

Lemma Sub_exact t u : Int64.in_range (t - u) -> time.Sub t u = t - u.
Proof.
  unfold Int64.in_range, time.Sub. intros [Hlo Hhi].
  destruct (Z.ltb_spec (t - u) Int64.min_int); [lia|].
  destruct (Z.ltb_spec Int64.max_int (t - u)); [lia|reflexivity].
Qed.

Lemma Sub_in_range t u : Int64.in_range (time.Sub t u).
Proof.
  unfold Int64.in_range, time.Sub, Int64.min_int, Int64.max_int.
  destruct (Z.ltb_spec (t - u) (-9223372036854775808)); [lia|].
  destruct (Z.ltb_spec 9223372036854775807 (t - u)); lia.
Qed.

(** Whole periods in a non-negative span: floor and truncation agree. *)
Lemma periods_bounds a b : 0 <= a -> 0 < b -> 0 <= a / b <= a /\ a / b * b <= a.
Proof.
  intros Ha Hb.
  pose proof (Z.div_pos a b Ha Hb).
  pose proof (Z.mul_div_le a b Hb).
  split; [split|]; nia.
Qed.

Lemma quot_exact a b :
  0 <= a <= Int64.max_int -> 0 < b -> Int64.quot a b = a / b.
Proof.
  intros Ha Hb. unfold Int64.quot.
  rewrite Z.quot_div_nonneg by lia.
  apply wrap_id. unfold Int64.in_range, Int64.min_int.
  pose proof (periods_bounds a b). lia.
Qed.

(** A span that is not positive yields no whole period, whichever way
    the division rounds. *)
Lemma quot_nonpos a b :
  Int64.min_int <= a <= 0 -> 0 < b -> Int64.quot a b <= 0.
Proof.
  intros Ha Hb. unfold Int64.quot.
  assert (Hq : a <= Z.quot a b <= 0).
  { rewrite <- (Z.opp_involutive a) at 2 3. rewrite Z.quot_opp_l by lia.
    rewrite Z.quot_div_nonneg by lia.
    pose proof (periods_bounds (- a) b). lia. }
  rewrite wrap_id; [lia|].
  unfold Int64.in_range, Int64.max_int, Int64.min_int in *. lia.
Qed.

Lemma div_nonpos a b : a <= 0 -> 0 < b -> a / b <= 0.
Proof.
  intros Ha Hb. destruct (Z.eq_dec a 0) as [->|Hne].
  - rewrite Z.div_0_l; lia.
  - pose proof (Z.div_lt_upper_bound a b 0 Hb). lia.
Qed.

End InRange.

(** ** The token bucket transition *)

Section TokenBucket.

Import tokenBucket.

(** The in-range refill: [periods] whole periods are credited, capped at
    the capacity, and the anchor advances by exactly those periods. *)
Lemma refill_in_range (tb : t) (now : Z) :
  0 < refillRate tb ->
  0 <= tokens tb <= capacity tb ->
  lastRefill tb <= now ->
  capacity tb + (now - lastRefill tb) <= Int64.max_int ->
  refill now tb =
    Done {| capacity := capacity tb;
            tokens := Z.min (capacity tb)
                        (tokens tb + (now - lastRefill tb) / refillRate tb);
            refillRate := refillRate tb;
            lastRefill := lastRefill tb
                          + (now - lastRefill tb) / refillRate tb * refillRate tb |}.
Proof.
  intros Hrate Hlvl Hnow Hfit. unfold refill, Int64.max_int in *.
  assert (Hsub : time.Sub now (lastRefill tb) = now - lastRefill tb).
  { apply Sub_exact. unfold Int64.in_range, Int64.min_int, Int64.max_int. lia. }
  rewrite Hsub.
  destruct (Z.eqb_spec (refillRate tb) 0); [lia|].
  rewrite quot_exact by (unfold Int64.max_int; lia).
  pose proof (periods_bounds (now - lastRefill tb) (refillRate tb)
                ltac:(lia) Hrate) as [[Hp0 Hp1] Hp2].
  set (periods := (now - lastRefill tb) / refillRate tb) in *.
  destruct (Z.ltb_spec 0 periods).
  - unfold Int64.add, Int64.mul, time.Add. rewrite min_spec.
    rewrite !wrap_id
      by (unfold Int64.in_range, Int64.min_int, Int64.max_int; nia).
    reflexivity.
  - replace periods with 0 by lia. destruct tb; simpl in *.
    f_equal. f_equal; lia.
Qed.

End TokenBucket.

(** In range, the in-memory engine computes the transition on integers. *)
Lemma tokenBucket_TryConsume_in_range (capacity level period anchorTime n now : Z) :
  0 < period ->
  0 <= level <= capacity ->
  0 <= n ->
  anchorTime <= now ->
  capacity + (now - anchorTime) <= Int64.max_int ->
  let periods := (now - anchorTime) / period in
  let refilled := Z.min capacity (level + periods) in
  let anchorTime' := anchorTime + periods * period in
  let ok := n <=? refilled in
  let level' := if ok then refilled - n else refilled in
  tokenBucket.TryConsume n now (tokenBucket.mk capacity level period anchorTime)
    = Done (ok, tokenBucket.mk capacity level' period anchorTime').
Proof.
  intros Hperiod Hlevel Hn Hnow Hfit periods refilled anchorTime' ok level'.
  pose proof (periods_bounds (now - anchorTime) period ltac:(lia) Hperiod)
    as [[Hp0 Hp1] Hp2].
  unfold tokenBucket.TryConsume.
  destruct (Z.ltb_spec n 0); [lia|].
  rewrite refill_in_range by (simpl; lia). simpl.
  fold periods refilled anchorTime'. subst ok level'.
  destruct (Z.leb_spec n refilled); [|reflexivity].
  unfold Int64.sub. rewrite wrap_id; [reflexivity|].
  unfold Int64.in_range, Int64.min_int, Int64.max_int in *. lia.
Qed.

(** The script on a stored record, for a span that is not negative. *)
Lemma TokenBucketRedis_TryConsume_record
      (capacity level period anchorTime n now : Z)
      (key : string) (c : redis.Client) (capacity0 period0 updated0 : Z) :
  0 < period ->
  0 <= n ->
  anchorTime <= now ->
  redis.reachable c = true ->
  redis.get now key c
    = Some (redis.TokenData capacity0 level period0 anchorTime updated0) ->
  let periods := (now - anchorTime) / period in
  let refilled := Z.min capacity (level + periods) in
  let anchorTime' := anchorTime + periods * period in
  let ok := n <=? refilled in
  let level' := if ok then refilled - n else refilled in
  0 <= level <= capacity ->
  TokenBucketRedis.TryConsume n now (TokenBucketRedis.mk key capacity period) c
    = (ok, redis.set_expire now key
             (redis.TokenData capacity level' period anchorTime' now) 3600 c).
Proof.
  intros Hperiod Hn Hnow Hreach Hget periods refilled anchorTime' ok level' Hlevel.
  pose proof (periods_bounds (now - anchorTime) period ltac:(lia) Hperiod)
    as [[Hp0 Hp1] Hp2].
  unfold TokenBucketRedis.TryConsume, redis.Eval, TokenBucketRedis.luaScript,
    time.UnixNano. simpl.
  destruct (Z.ltb_spec n 0); [lia|].
  rewrite Hreach, Hget. simpl.
  destruct (Z.eqb_spec period 0); [lia|]. fold periods.
  destruct (Z.ltb_spec 0 periods); simpl.
  - fold refilled anchorTime'. subst ok level'.
    destruct (Z.leb_spec n refilled); reflexivity.
  - assert (Hz : periods = 0) by lia.
    assert (Hr : refilled = level) by (subst refilled; lia).
    assert (Ha : anchorTime' = anchorTime) by (subst anchorTime'; lia).
    subst ok level'. rewrite Hr, Ha.
    destruct (Z.leb_spec n level); reflexivity.
Qed.

(** The script on a key without record: a full bucket anchored at [now]. *)
Lemma TokenBucketRedis_TryConsume_new (capacity period n now : Z)
      (key : string) (c : redis.Client) :
  period <> 0 ->
  0 <= n ->
  redis.reachable c = true ->
  redis.get now key c = None ->
  TokenBucketRedis.TryConsume n now (TokenBucketRedis.mk key capacity period) c
    = (n <=? capacity,
       redis.set_expire now key
         (redis.TokenData capacity (if n <=? capacity then capacity - n else capacity)
            period now now) 3600 c).
Proof.
  intros Hperiod Hn Hreach Hget.
  unfold TokenBucketRedis.TryConsume, redis.Eval, TokenBucketRedis.luaScript,
    time.UnixNano. simpl.
  destruct (Z.ltb_spec n 0); [lia|].
  rewrite Hreach, Hget. simpl.
  destruct (Z.eqb_spec period 0); [lia|].
  rewrite Z.sub_diag, Z.div_0_l by lia. simpl.
  destruct (Z.leb_spec n capacity); reflexivity.
Qed.



(** ** The leaky bucket transition *)

Section LeakyBucket.

Import leakyBucket.

(** The in-range drain: min(periods, queue) requests leave and the anchor
    advances by exactly that many periods. *)
Lemma leak_in_range (lb : t) (now : Z) :
  0 < leakRate lb ->
  0 <= queue lb <= Int64.max_int ->
  lastLeak lb <= now ->
  now - lastLeak lb <= Int64.max_int ->
  leak now lb =
    Done {| capacity := capacity lb;
            queue := queue lb
                     - Z.min ((now - lastLeak lb) / leakRate lb) (queue lb);
            leakRate := leakRate lb;
            lastLeak := lastLeak lb
                        + Z.min ((now - lastLeak lb) / leakRate lb) (queue lb)
                          * leakRate lb |}.
Proof.
  intros Hrate Hq Hnow Hfit. unfold leak, Int64.max_int in *.
  assert (Hsub : time.Sub now (lastLeak lb) = now - lastLeak lb).
  { apply Sub_exact. unfold Int64.in_range, Int64.min_int, Int64.max_int. lia. }
  rewrite Hsub.
  destruct (Z.eqb_spec (leakRate lb) 0); [lia|].
  rewrite quot_exact by (unfold Int64.max_int; lia).
  pose proof (periods_bounds (now - lastLeak lb) (leakRate lb)
                ltac:(lia) Hrate) as [[Hp0 Hp1] Hp2].
  set (periods := (now - lastLeak lb) / leakRate lb) in *.
  destruct (Z.ltb_spec 0 periods); destruct (Z.ltb_spec 0 (queue lb)); simpl.
  - unfold Int64.sub, Int64.mul, time.Add. rewrite min_spec.
    rewrite !wrap_id
      by (unfold Int64.in_range, Int64.min_int, Int64.max_int; nia).
    reflexivity.
  - replace (Z.min periods (queue lb)) with 0 by lia.
    destruct lb; simpl in *. f_equal. f_equal; lia.
  - replace (Z.min periods (queue lb)) with 0 by lia.
    destruct lb; simpl in *. f_equal. f_equal; lia.
  - replace (Z.min periods (queue lb)) with 0 by lia.
    destruct lb; simpl in *. f_equal. f_equal; lia.
Qed.

End LeakyBucket.

(** The transition of the leaky bucket wherever the sum queue + n fits
    int64: both engines drain min(floor((now - anchor) / period), level),
    advance the anchor by exactly the drained periods, then admit n if and
    only if level + n <= capacity. *)
Lemma leaky_bucket_transition_in_range
      (capacity level period anchorTime n now : Z)
      (key : string) (c : redis.Client)
      (capacity0 period0 updated0 : Z) :
  0 < period ->
  0 <= level <= capacity ->
  0 <= n ->
  capacity + n <= Int64.max_int ->
  anchorTime <= now ->
  now - anchorTime <= Int64.max_int ->
  redis.reachable c = true ->
  redis.get now key c
    = Some (redis.LeakyData capacity0 level period0 anchorTime updated0) ->
  let drained := Z.min ((now - anchorTime) / period) level in
  let anchorTime' := anchorTime + drained * period in
  let ok := level - drained + n <=? capacity in
  let level' := if ok then level - drained + n else level - drained in
  leakyBucket.TryAdd n now (leakyBucket.mk capacity level period anchorTime)
    = Done (ok, leakyBucket.mk capacity level' period anchorTime')
  /\ LeakyBucketRedis.TryAdd n now (LeakyBucketRedis.mk key capacity period) c
    = (ok, redis.set_expire now key
             (redis.LeakyData capacity level' period anchorTime' now) 3600 c).
Proof.
  intros Hperiod Hlevel Hn Hsum Hnow Hfit Hreach Hget drained anchorTime' ok level'.
  pose proof (periods_bounds (now - anchorTime) period ltac:(lia) Hperiod)
    as [[Hp0 Hp1] Hp2].
  split.
  - unfold leakyBucket.TryAdd.
    destruct (Z.ltb_spec n 0); [lia|].
    rewrite leak_in_range by (simpl; unfold Int64.max_int in *; lia). simpl.
    fold drained anchorTime'. subst ok level'.
    unfold Int64.add. rewrite wrap_id
      by (unfold Int64.in_range, Int64.min_int, Int64.max_int in *; lia).
    destruct (Z.ltb_spec capacity (level - drained + n));
      destruct (Z.leb_spec (level - drained + n) capacity); try lia; reflexivity.
  - unfold LeakyBucketRedis.TryAdd, redis.Eval, LeakyBucketRedis.luaScript,
      time.UnixNano. simpl.
    destruct (Z.ltb_spec n 0); [lia|].
    rewrite Hreach, Hget. simpl.
    destruct (Z.eqb_spec period 0); [lia|].
    destruct (Z.ltb_spec 0 ((now - anchorTime) / period));
      destruct (Z.ltb_spec 0 level); simpl.
    + fold drained anchorTime'. subst ok level'.
      destruct (Z.leb_spec (level - drained + n) capacity); reflexivity.
    + assert (Hd : drained = 0) by (subst drained; lia).
      subst ok level' anchorTime'. rewrite Hd, Z.sub_0_r, Z.add_0_r.
      destruct (Z.leb_spec (level + n) capacity); reflexivity.
    + assert (Hd : drained = 0) by (subst drained; lia).
      subst ok level' anchorTime'. rewrite Hd, Z.sub_0_r, Z.add_0_r.
      destruct (Z.leb_spec (level + n) capacity); reflexivity.
    + assert (Hd : drained = 0) by (subst drained; lia).
      subst ok level' anchorTime'. rewrite Hd, Z.sub_0_r, Z.add_0_r.
      destruct (Z.leb_spec (level + n) capacity); reflexivity.
Qed.

Example leaky_scenario :
  leakyScenarioLocal = Done (true, 5, (false, 5), (3, 2))
  /\ leakyScenarioRemote = Done (true, Some 5, (false, Some 5), (3, 2)).
Proof. split; vm_compute; reflexivity. Qed.

(** C2. Leaky bucket transition, at the request size where the code
    departs from it.  With capacity 5 and one request queued, a request
    for 2^63 - 1 units does not fit (1 + n > 5) and must fail, leaving the
    queue at 1.  The in-memory engine computes queue + n in int64: the sum
    wraps to -2^63, passes the capacity test, the call returns true and
    the queue becomes -2^63.  The Lua script on the same state rejects
    the request and keeps the queue at 1. *)
Theorem leaky_TryAdd_wraps_and_accepts :
  let period := 200 * time.Millisecond in
  let n := 9223372036854775807 in
  let c := redis.set_expire 0 "k" (redis.LeakyData 5 1 period 0 0) 3600
             (redis.mkClient true ∅) in
  (1 + n <=? 5) = false
  /\ leakyBucket.TryAdd n 0 (leakyBucket.mk 5 1 period 0)
     = Done (true, leakyBucket.mk 5 (-9223372036854775808) period 0)
  /\ LeakyBucketRedis.TryAdd n 0 (LeakyBucketRedis.mk "k" 5 period) c
     = (false, redis.set_expire 0 "k" (redis.LeakyData 5 1 period 0 0) 3600 c).
Proof. repeat split; vm_compute; reflexivity. Qed.

(** C4. Level invariant, on a sequence that breaks it.  From a freshly
    created in-memory leaky bucket of capacity 5, the admission attempts
    TryAdd(1), TryAdd(2^63 - 1), both of non-negative size, both succeed
    and leave the level at -2^63, below 0; the status query that follows
    reports that queue length. *)
Theorem leaky_level_leaves_bounds :
  let period := 200 * time.Millisecond in
  let lb0 := leakyBucket.NewLeakyBucket 5 period 0 in
  exists lb1 lb2,
    leakyBucket.TryAdd 1 0 lb0 = Done (true, lb1)
    /\ leakyBucket.queue lb1 = 1
    /\ leakyBucket.TryAdd 9223372036854775807 0 lb1 = Done (true, lb2)
    /\ leakyBucket.queue lb2 = -9223372036854775808
    /\ leakyBucket.queue lb2 < 0
    /\ leakyBucket.GetStatus 0 lb2
       = Done ((-9223372036854775808, 5, period), lb2).
Proof.
  eexists _, _.
  repeat split; try (vm_compute; reflexivity).
Qed.

(** ** The orchestrator and an unreachable shard *)

Section Orchestrator.

Import RedisRateLimiterService.

(** The router never hands out a nil pointer. *)
Lemma GetClient_not_nil userID rm r :
  RedisManager.GetClient userID rm = Done r ->
  exists i, r = Some i /\ (i < length (RedisManager.clients rm))%nat.
Proof.
  unfold RedisManager.GetClient.
  destruct (Z.eqb_spec (Z.of_nat (length (RedisManager.clients rm))) 0);
    [discriminate|].
  destruct (Z.leb_spec 0
              (Z.rem (crc32.ChecksumIEEE userID)
                 (Z.of_nat (length (RedisManager.clients rm)))));
    [|discriminate].
  destruct (Z.ltb_spec
              (Z.rem (crc32.ChecksumIEEE userID)
                 (Z.of_nat (length (RedisManager.clients rm))))
              (Z.of_nat (length (RedisManager.clients rm))));
    [|discriminate].
  simpl. intros [= <-]. eexists; split; [reflexivity|lia].
Qed.

Lemma store_same i c rrs :
  RedisManager.clients (redisManager rrs) !! i = Some c ->
  store i c rrs = rrs.
Proof.
  intros H. unfold store. rewrite list_insert_id by exact H.
  destruct rrs as [[cl] cfg m tbs lbs]. reflexivity.
Qed.

(** On an unreachable instance every remote admission is refused and
    the instance is left as it was. *)
Lemma acquireRedis_unreachable key n algorithm now rrs c :
  redis.reachable c = false ->
  acquireRedis key n algorithm now rrs c = (false, c).
Proof.
  intros Hdown. unfold acquireRedis.
  destruct (String.eqb algorithm "leaky_bucket").
  - unfold LeakyBucketRedis.TryAdd, redis.Eval. rewrite Hdown.
    destruct (n <? 0); reflexivity.
  - unfold TokenBucketRedis.TryConsume, redis.Eval. rewrite Hdown.
    destruct (n <? 0); reflexivity.
Qed.

(** What [Acquire] does when the shard of the key is unreachable: the
    answer is a refusal, counted as rate-limited; no fallback bucket is
    consulted or created. *)
Lemma Acquire_unreachable key n algorithm now rrs i c :
  RedisManager.GetClient key (redisManager rrs) = Done (Some i) ->
  RedisManager.clients (redisManager rrs) !! i = Some c ->
  redis.reachable c = false ->
  Acquire key n algorithm now rrs
  = Done (false,
          set_metrics (MetricsCollector.RecordRequest false true (metrics rrs)) rrs).
Proof.
  intros Hclient Hc Hdown. unfold Acquire. rewrite Hclient. simpl.
  unfold deref. rewrite Hc. simpl.
  rewrite acquireRedis_unreachable by exact Hdown. simpl.
  rewrite store_same by exact Hc. reflexivity.
Qed.

End Orchestrator.

(** C3. Fallback on remote unreachability, at a call where the code does
    not fall back.  The service has one shard and it is unreachable; the
    caller asks for 1 permit, for either algorithm.  [Acquire] returns
    false, records the request as rate-limited and leaves both fallback
    maps empty, although the in-process engine for that key, had it been
    asked, admits the request. *)
Theorem acquire_unreachable_is_denied :
  observeAcquire
    (RedisRateLimiterService.Acquire "fallback_user" 1 "token_bucket" 0
       unreachableService)
  = Done (false, 0%nat, 0%nat, 1)
  /\ observeAcquire
       (RedisRateLimiterService.acquireInMemoryFallback
          "fallback_user" 1 "token_bucket" 0 unreachableService)
     = Done (true, 1%nat, 0%nat, 0)
  /\ observeAcquire
       (RedisRateLimiterService.Acquire "fallback_user" 1 "leaky_bucket" 0
          unreachableService)
     = Done (false, 0%nat, 0%nat, 1)
  /\ observeAcquire
       (RedisRateLimiterService.acquireInMemoryFallback
          "fallback_user" 1 "leaky_bucket" 0 unreachableService)
     = Done (true, 0%nat, 1%nat, 0).
Proof.
  split; [|split; [|split]]; vm_compute; reflexivity.
Qed.

(** ** Unparsable records *)

Section Corruption.

(** The admission script raises on a record it cannot decode: the call
    is refused and the record stays. *)
Lemma TryConsume_on_garbage n now tbr c raw :
  redis.get now (TokenBucketRedis.key tbr) c = Some (redis.Garbage raw) ->
  TokenBucketRedis.TryConsume n now tbr c = (false, c).
Proof.
  intros Hget.
  unfold TokenBucketRedis.TryConsume, redis.Eval, TokenBucketRedis.luaScript,
    time.UnixNano.
  rewrite Hget. simpl.
  destruct (n <? 0); [reflexivity|]. destruct (redis.reachable c); reflexivity.
Qed.

Lemma TryAdd_on_garbage n now lbr c raw :
  redis.get now (LeakyBucketRedis.key lbr) c = Some (redis.Garbage raw) ->
  LeakyBucketRedis.TryAdd n now lbr c = (false, c).
Proof.
  intros Hget.
  unfold LeakyBucketRedis.TryAdd, redis.Eval, LeakyBucketRedis.luaScript,
    time.UnixNano.
  rewrite Hget. simpl.
  destruct (n <? 0); [reflexivity|]. destruct (redis.reachable c); reflexivity.
Qed.

(** The status query answers with the defaults of a fresh bucket. *)
Lemma TokenBucketRedis_GetStatus_on_garbage now tbr c raw :
  redis.get now (TokenBucketRedis.key tbr) c = Some (redis.Garbage raw) ->
  TokenBucketRedis.GetStatus now tbr c
  = Done (TokenBucketRedis.capacity tbr, TokenBucketRedis.capacity tbr,
          time.Add now (TokenBucketRedis.refillRate tbr)).
Proof.
  intros Hget. unfold TokenBucketRedis.GetStatus, redis.Get. rewrite Hget.
  destruct (redis.reachable c); reflexivity.
Qed.

Lemma LeakyBucketRedis_GetStatus_on_garbage now lbr c raw :
  redis.get now (LeakyBucketRedis.key lbr) c = Some (redis.Garbage raw) ->
  LeakyBucketRedis.GetStatus now lbr c
  = Done (0, LeakyBucketRedis.capacity lbr,
          time.Add now (LeakyBucketRedis.leakRate lbr)).
Proof.
  intros Hget. unfold LeakyBucketRedis.GetStatus, redis.Get. rewrite Hget.
  destruct (redis.reachable c); reflexivity.
Qed.

End Corruption.

(** C8. Corruption tolerance, at a record where the admission path does
    not tolerate it.  The shard holds unparsable text under the bucket
    keys of "user" (capacity 100).  The status queries answer with the
    defaults of a fresh bucket: 100 tokens of 100, an empty queue, not
    blocked.  The admission of 1 permit is refused, for either
    algorithm, and the unparsable record is still there afterwards,
    although a bucket with no prior state admits the same request. *)
Theorem corrupt_record_blocks_admission :
  corruptAcquire "token_bucket" "rate_limit:token_bucket:user"
  = Done (false, Some (redis.Garbage "{not json"))
  /\ corruptAcquire "leaky_bucket" "rate_limit:leaky_bucket:user"
     = Done (false, Some (redis.Garbage "{not json"))
  /\ observeAcquire
       (RedisRateLimiterService.Acquire "user" 1 "token_bucket" 0
          (freshService 100 time.Second))
     = Done (true, 0%nat, 0%nat, 0)
  /\ observeAcquire
       (RedisRateLimiterService.Acquire "user" 1 "leaky_bucket" 0
          (freshService 100 time.Second))
     = Done (true, 0%nat, 0%nat, 0)
  /\ (c ← RedisRateLimiterService.deref 0 corruptService;
      TokenBucketRedis.GetStatus 0
        (TokenBucketRedis.NewTokenBucketRedis "user" 100 time.Second) c)
     = Done (100, 100, time.Second)
  /\ (c ← RedisRateLimiterService.deref 0 corruptService;
      LeakyBucketRedis.GetStatus 0
        (LeakyBucketRedis.NewLeakyBucketRedis "user" 100 time.Second) c)
     = Done (0, 100, time.Second)
  /\ corruptStatus = Done (100, 100, false).
Proof.
  split; [|split; [|split; [|split; [|split; [|split]]]]];
    vm_compute; reflexivity.
Qed.

(** ** Routing *)

Section Routing.

Lemma lxor_bound a b n :
  0 <= n -> 0 <= a < 2 ^ n -> 0 <= b < 2 ^ n -> 0 <= Z.lxor a b < 2 ^ n.
Proof.
  intros Hn Ha Hb.
  assert (Hx : 0 <= Z.lxor a b) by (apply Z.lxor_nonneg; lia).
  split; [exact Hx|].
  destruct (Z.eq_dec (Z.lxor a b) 0) as [->|Hne]; [lia|].
  destruct (Z.eq_dec n 0) as [->|Hn0].
  - assert (a = 0) by (simpl in *; lia). assert (b = 0) by (simpl in *; lia).
    subst. exfalso. apply Hne. reflexivity.
  - apply Z.log2_lt_pow2; [lia|].
    pose proof (Z.log2_lxor a b ltac:(lia) ltac:(lia)) as Hl.
    assert (Hla : Z.log2 a < n).
    { destruct (Z.eq_dec a 0) as [->|]; [simpl; lia|].
      apply Z.log2_lt_pow2; lia. }
    assert (Hlb : Z.log2 b < n).
    { destruct (Z.eq_dec b 0) as [->|]; [simpl; lia|].
      apply Z.log2_lt_pow2; lia. }
    lia.
Qed.

Lemma step_uint32 crc : uint32 crc -> uint32 (crc32.step crc).
Proof.
  unfold uint32, crc32.step. intros H.
  assert (Hs : 0 <= Z.shiftr crc 1 < 2 ^ 32).
  { rewrite Z.shiftr_div_pow2 by lia. change (2 ^ 1) with 2.
    change (2 ^ 32) with 4294967296 in *.
    pose proof (Z.div_pos crc 2). pose proof (Z.mul_div_le crc 2). lia. }
  destruct (Z.testbit crc 0); [|exact Hs].
  apply lxor_bound; [lia|exact Hs|]. change (2 ^ 32) with 4294967296. lia.
Qed.

Lemma update_byte_uint32 crc b : uint32 crc -> uint32 (crc32.update_byte crc b).
Proof.
  intros H. unfold crc32.update_byte.
  do 8 apply step_uint32.
  apply lxor_bound; [lia|exact H|].
  pose proof (N_ascii_bounded b) as Hb. change (2 ^ 32) with 4294967296. lia.
Qed.

Lemma update_uint32 p : forall crc, uint32 crc -> uint32 (crc32.update crc p).
Proof.
  induction p as [|b p IH]; intros crc H; simpl; [exact H|].
  apply IH, update_byte_uint32, H.
Qed.

(** The checksum is a uint32, so [int(hash)] is exact and non-negative. *)
Lemma ChecksumIEEE_uint32 data : uint32 (crc32.ChecksumIEEE data).
Proof.
  unfold crc32.ChecksumIEEE.
  apply lxor_bound; [lia| |change (2 ^ 32) with 4294967296; lia].
  apply update_uint32. unfold uint32. change (2 ^ 32) with 4294967296. lia.
Qed.

End Routing.

(** C7. Routing determinism.  For every key and every router with
    N >= 1 shards, the resolved index is the CRC-32 (IEEE) checksum of
    the key modulo N, a valid index, and the client handed out is the one
    at that index; the index depends on the key and on N alone, so a
    router with the same number of shards resolves the key alike.  The
    checksum is the standard one (check value 0xCBF43926) and fits 32
    bits. *)
Theorem routing_is_crc32_mod_shards (key : string) (rm rm' : RedisManager.t) :
  (1 <= length (RedisManager.clients rm))%nat ->
  length (RedisManager.clients rm') = length (RedisManager.clients rm) ->
  let N := Z.of_nat (length (RedisManager.clients rm)) in
  let index := crc32.ChecksumIEEE key mod N in
  0 <= index < N
  /\ RedisManager.GetClientIndex key rm = Done index
  /\ RedisManager.GetClient key rm = Done (Some (Z.to_nat index))
  /\ RedisManager.GetClientIndex key rm' = RedisManager.GetClientIndex key rm
  /\ RedisManager.GetClient key rm' = RedisManager.GetClient key rm
  /\ 0 <= crc32.ChecksumIEEE key < 2 ^ 32
  /\ crc32.ChecksumIEEE "123456789" = 3421780262.
Proof.
  intros HN Hlen N index.
  pose proof (ChecksumIEEE_uint32 key) as Hu. unfold uint32 in Hu.
  assert (HNpos : 0 < N) by (subst N; lia).
  assert (Hidx : 0 <= index < N) by (subst index; apply Z.mod_pos_bound; lia).
  assert (Hrem : Z.rem (crc32.ChecksumIEEE key) N = index).
  { subst index. apply Z.rem_mod_nonneg; lia. }
  split; [exact Hidx|].
  unfold RedisManager.GetClientIndex, RedisManager.GetClient.
  rewrite Hlen. fold N. rewrite Hrem.
  destruct (Z.eqb_spec N 0); [lia|].
  destruct (Z.leb_spec 0 index); [|lia].
  destruct (Z.ltb_spec index N); [|lia].
  repeat split; try reflexivity; try lia.
Qed.

Lemma routing_is_crc32_mod_shards_witness :
  let shard := redis.mkClient true ∅ in
  RedisManager.GetClientIndex "fallback_user" (RedisManager.mk [shard; shard])
    = Done 0
  /\ RedisManager.GetClient "fallback_user" (RedisManager.mk [shard; shard])
    = Done (Some 0%nat).
Proof.
  intros shard.
  pose proof (routing_is_crc32_mod_shards "fallback_user"
                (RedisManager.mk [shard; shard]) (RedisManager.mk [shard; shard])
                ltac:(simpl; lia) ltac:(reflexivity)) as H.
  split; [exact (proj1 (proj2 H)) | exact (proj1 (proj2 (proj2 H)))].
Defined.

(** ** Status synthesis *)

Section Status.

Import models RedisRateLimiterService.

(** A per-algorithm status without state is the default one. *)
Lemma getTokenBucketStatus_shape key now rrs ts rrs' :
  getTokenBucketStatus key now rrs = Done (ts, rrs') ->
  Algorithm ts = "token_bucket"%string
  /\ (HasState ts = false -> ts = defaultStatus "token_bucket" now rrs).
Proof.
  unfold getTokenBucketStatus, getInMemoryTokenBucketStatus.
  destruct (RedisManager.GetClient key (redisManager rrs)) as [[i|]|];
    simpl; [| |discriminate].
  - destruct (deref i rrs) as [c|]; simpl; [|discriminate].
    destruct (TokenBucketRedis.HasState now _ c); simpl.
    + destruct (TokenBucketRedis.GetStatus now _ c) as [[[tl cap] nr]|];
        simpl; [|discriminate].
      intros [= <- <-]. simpl. split; [reflexivity|discriminate].
    + intros [= <- <-]. split; reflexivity.
  - destruct (tokenBuckets rrs !! key) as [b|].
    + destruct (tokenBucket.GetStatus now b) as [[[[tl cap] nr] b']|];
        simpl; [|discriminate].
      intros [= <- <-]. simpl. split; [reflexivity|discriminate].
    + intros [= <- <-]. split; reflexivity.
Qed.

Lemma getLeakyBucketStatus_shape key now rrs ls rrs' :
  getLeakyBucketStatus key now rrs = Done (ls, rrs') ->
  Algorithm ls = "leaky_bucket"%string
  /\ (HasState ls = false -> ls = defaultStatus "leaky_bucket" now rrs).
Proof.
  unfold getLeakyBucketStatus, getInMemoryLeakyBucketStatus.
  destruct (RedisManager.GetClient key (redisManager rrs)) as [[i|]|];
    simpl; [| |discriminate].
  - destruct (deref i rrs) as [c|]; simpl; [|discriminate].
    destruct (LeakyBucketRedis.HasState now _ c); simpl.
    + destruct (LeakyBucketRedis.GetStatus now _ c) as [[[ql cap] nl]|];
        simpl; [|discriminate].
      intros [= <- <-]. simpl. split; [reflexivity|discriminate].
    + intros [= <- <-]. split; reflexivity.
  - destruct (leakyBuckets rrs !! key) as [b|].
    + destruct (leakyBucket.GetStatus now b) as [[[[ql cap] nl] b']|];
        simpl; [|discriminate].
      intros [= <- <-]. simpl. split; [reflexivity|discriminate].
    + intros [= <- <-]. split; reflexivity.
Qed.

End Status.



(** ** HTTP boundary *)

(** C10. At the HTTP endpoint a requested token count that is zero or
    negative is rewritten to 1 before [Acquire] is invoked: the handler
    answers such a request exactly as it answers the same request for one
    permit, with the outcome of [Acquire] for 1 permit.  On a fresh
    bucket of capacity 10 a request for 0 and a request for -1 permits
    are both allowed and both leave 9 tokens. *)
Theorem AcquireHandler_nonpositive_is_one
        (r : Handlers.Request) (req : models.AcquireRequest) (now : Z)
        (rrs : RedisRateLimiterService.t) :
  Handlers.Method r = "POST"%string ->
  Handlers.UserID r <> ""%string ->
  Handlers.Body r = Some req ->
  models.Tokens req <= 0 ->
  let algorithm :=
    if String.eqb (models.ReqAlgorithm req) "" then "token_bucket"%string
    else models.ReqAlgorithm req in
  let one :=
    Handlers.mkRequest (Handlers.Method r) (Handlers.UserID r)
      (Some (models.mkAcquireRequest (models.Key req) 1 (models.ReqAlgorithm req))) in
  Handlers.AcquireHandler r now rrs
  = ('(allowed, rrs') ←
       RedisRateLimiterService.Acquire (Handlers.UserID r) 1 algorithm now rrs;
     if allowed : bool then Done (Handlers.SendAcquireSuccess, rrs')
     else Done (Handlers.SendRateLimited, rrs'))
  /\ Handlers.AcquireHandler r now rrs = Handlers.AcquireHandler one now rrs
  /\ handlerScenario 0 = Done (Handlers.SendAcquireSuccess, Some 9)
  /\ handlerScenario (-1) = Done (Handlers.SendAcquireSuccess, Some 9).
Proof.
  intros Hmethod Huser Hbody Htokens algorithm one.
  assert (Hu : String.eqb (Handlers.UserID r) "" = false)
    by (apply String.eqb_neq; exact Huser).
  split; [|split; [|split]].
  - unfold Handlers.AcquireHandler.
    rewrite Hmethod, Hu, Hbody. simpl.
    destruct (Z.leb_spec (models.Tokens req) 0); [reflexivity|lia].
  - unfold Handlers.AcquireHandler, one. simpl.
    rewrite Hmethod, Hu, Hbody. simpl.
    destruct (Z.leb_spec (models.Tokens req) 0); [reflexivity|lia].
  - vm_compute. reflexivity.
  - vm_compute. reflexivity.
Qed.

Lemma AcquireHandler_nonpositive_is_one_witness :
  let s := freshService 10 time.Second in
  let r (tokens : Z) :=
    Handlers.mkRequest "POST" "user"
      (Some (models.mkAcquireRequest "" tokens "leaky_bucket")) in
  Handlers.AcquireHandler (r (-7)) 0 s = Handlers.AcquireHandler (r 1) 0 s.
Proof.
  intros s r.
  exact (proj1 (proj2
    (AcquireHandler_nonpositive_is_one (r (-7))
       (models.mkAcquireRequest "" (-7) "leaky_bucket") 0 s
       ltac:(reflexivity) ltac:(discriminate) ltac:(reflexivity)
       ltac:(simpl; lia)))).
Defined.

(** ** Negative and zero requests *)

Section EdgeRequests.

Import RedisRateLimiterService.

Lemma GetClient_some key rm :
  (1 <= length (RedisManager.clients rm))%nat ->
  exists i c,
    RedisManager.GetClient key rm = Done (Some i)
    /\ RedisManager.clients rm !! i = Some c.
Proof.
  intros HN.
  pose proof (ChecksumIEEE_uint32 key) as Hu. unfold uint32 in Hu.
  set (N := Z.of_nat (length (RedisManager.clients rm))).
  assert (HNpos : 0 < N) by (subst N; lia).
  pose proof (Z.mod_pos_bound (crc32.ChecksumIEEE key) N HNpos) as Hidx.
  assert (Hrem : Z.rem (crc32.ChecksumIEEE key) N = crc32.ChecksumIEEE key mod N)
    by (apply Z.rem_mod_nonneg; lia).
  unfold RedisManager.GetClient. fold N. rewrite Hrem.
  destruct (Z.eqb_spec N 0); [lia|].
  destruct (Z.leb_spec 0 (crc32.ChecksumIEEE key mod N)); [|lia].
  destruct (Z.ltb_spec (crc32.ChecksumIEEE key mod N) N); [|lia].
  simpl.
  destruct (lookup_lt_is_Some_2 (RedisManager.clients rm)
              (Z.to_nat (crc32.ChecksumIEEE key mod N))) as [c Hc];
    [subst N; lia|].
  eexists _, c. split; [reflexivity|exact Hc].
Qed.

Lemma acquireRedis_negative key n algorithm now rrs c :
  n < 0 -> acquireRedis key n algorithm now rrs c = (false, c).
Proof.
  intros Hn. unfold acquireRedis, LeakyBucketRedis.TryAdd,
    TokenBucketRedis.TryConsume.
  destruct (Z.ltb_spec n 0); [|lia].
  destruct (String.eqb algorithm "leaky_bucket"); reflexivity.
Qed.

(** A negative request through [Acquire]: refused, and apart from the
    request counters the service is what it was. *)
Lemma Acquire_negative key n algorithm now rrs :
  n < 0 ->
  (1 <= length (RedisManager.clients (redisManager rrs)))%nat ->
  Acquire key n algorithm now rrs
  = Done (false,
          set_metrics (MetricsCollector.RecordRequest false true (metrics rrs)) rrs).
Proof.
  intros Hn HN.
  destruct (GetClient_some key (redisManager rrs) HN) as (i & c & Hi & Hc).
  unfold Acquire. rewrite Hi. simpl. unfold deref. rewrite Hc. simpl.
  rewrite acquireRedis_negative by exact Hn. simpl.
  rewrite store_same by exact Hc. reflexivity.
Qed.

(** The script on a key without record: an empty queue anchored at
    [now]. *)
Lemma LeakyBucketRedis_TryAdd_new (capacity period n now : Z)
      (key : string) (c : redis.Client) :
  period <> 0 ->
  0 <= n ->
  redis.reachable c = true ->
  redis.get now key c = None ->
  LeakyBucketRedis.TryAdd n now (LeakyBucketRedis.mk key capacity period) c
  = (n <=? capacity,
     redis.set_expire now key
       (redis.LeakyData capacity (if n <=? capacity then n else 0)
          period now now) 3600 c).
Proof.
  intros Hperiod Hn Hreach Hget.
  unfold LeakyBucketRedis.TryAdd, redis.Eval, LeakyBucketRedis.luaScript,
    time.UnixNano. simpl.
  destruct (Z.ltb_spec n 0); [lia|].
  rewrite Hreach, Hget. simpl.
  destruct (Z.eqb_spec period 0); [lia|].
  rewrite Z.sub_diag, Z.div_0_l by lia. simpl.
  rewrite Z.add_0_l.
  destruct (Z.leb_spec n capacity); reflexivity.
Qed.

End EdgeRequests.




(** ** One step of each engine, for any clock reading

    Whole periods are counted from the anchor; a clock reading before
    the anchor counts none, whichever way the division rounds. *)

Section Steps.

Lemma tokenBucket_TryConsume_step (capacity level period anchorTime n now : Z) :
  0 < period ->
  0 <= level <= capacity ->
  0 <= n ->
  capacity <= Int64.max_int ->
  Int64.min_int <= now - anchorTime ->
  capacity + (now - anchorTime) <= Int64.max_int ->
  let periods := Z.max 0 ((now - anchorTime) / period) in
  let refilled := Z.min capacity (level + periods) in
  let anchorTime' := anchorTime + periods * period in
  let ok := n <=? refilled in
  let level' := if ok then refilled - n else refilled in
  tokenBucket.TryConsume n now (tokenBucket.mk capacity level period anchorTime)
  = Done (ok, tokenBucket.mk capacity level' period anchorTime').
Proof.
  intros Hperiod Hlevel Hn Hcap Hlo Hfit periods refilled anchorTime' ok level'.
  destruct (Z.le_gt_cases anchorTime now) as [Hfwd|Hback].
  - pose proof (periods_bounds (now - anchorTime) period ltac:(lia) Hperiod)
      as [[Hp0 Hp1] Hp2].
    assert (Hp : periods = (now - anchorTime) / period) by (subst periods; lia).
    subst ok level' refilled anchorTime'. rewrite Hp.
    apply tokenBucket_TryConsume_in_range; assumption.
  - pose proof (div_nonpos (now - anchorTime) period ltac:(lia) Hperiod) as Hd.
    assert (Hp : periods = 0) by (subst periods; lia).
    assert (Hr : refilled = level) by (subst refilled; lia).
    assert (Ha : anchorTime' = anchorTime) by (subst anchorTime'; lia).
    subst ok level'. rewrite Hr, Ha.
    unfold tokenBucket.TryConsume, tokenBucket.refill. simpl.
    destruct (Z.ltb_spec n 0); [lia|].
    rewrite Sub_exact
      by (unfold Int64.in_range, Int64.max_int, Int64.min_int in *; lia).
    destruct (Z.eqb_spec period 0); [lia|].
    pose proof (quot_nonpos (now - anchorTime) period ltac:(lia) Hperiod) as Hq.
    destruct (Z.ltb_spec 0 (Int64.quot (now - anchorTime) period)); [lia|].
    simpl. destruct (Z.leb_spec n level); [|reflexivity].
    unfold Int64.sub. rewrite wrap_id; [reflexivity|].
    unfold Int64.in_range, Int64.min_int, Int64.max_int in *. lia.
Qed.

Lemma TokenBucketRedis_TryConsume_step
      (capacity level period anchorTime n now : Z)
      (key : string) (c : redis.Client) (capacity0 period0 updated0 : Z) :
  0 < period ->
  0 <= level <= capacity ->
  0 <= n ->
  redis.reachable c = true ->
  redis.get now key c
    = Some (redis.TokenData capacity0 level period0 anchorTime updated0) ->
  let periods := Z.max 0 ((now - anchorTime) / period) in
  let refilled := Z.min capacity (level + periods) in
  let anchorTime' := anchorTime + periods * period in
  let ok := n <=? refilled in
  let level' := if ok then refilled - n else refilled in
  TokenBucketRedis.TryConsume n now (TokenBucketRedis.mk key capacity period) c
  = (ok, redis.set_expire now key
           (redis.TokenData capacity level' period anchorTime' now) 3600 c).
Proof.
  intros Hperiod Hlevel Hn Hreach Hget periods refilled anchorTime' ok level'.
  unfold TokenBucketRedis.TryConsume, redis.Eval, TokenBucketRedis.luaScript,
    time.UnixNano. simpl.
  destruct (Z.ltb_spec n 0); [lia|].
  rewrite Hreach, Hget. simpl.
  destruct (Z.eqb_spec period 0); [lia|].
  destruct (Z.ltb_spec 0 ((now - anchorTime) / period)); simpl.
  - assert (Hp : periods = (now - anchorTime) / period) by (subst periods; lia).
    subst ok level' refilled anchorTime'. rewrite Hp.
    destruct (Z.leb_spec n
                (Z.min capacity (level + (now - anchorTime) / period)));
      reflexivity.
  - assert (Hp : periods = 0) by (subst periods; lia).
    assert (Hr : refilled = level) by (subst refilled; lia).
    assert (Ha : anchorTime' = anchorTime) by (subst anchorTime'; lia).
    subst ok level'. rewrite Hr, Ha.
    destruct (Z.leb_spec n level); reflexivity.
Qed.

Lemma leakyBucket_TryAdd_step (capacity level period anchorTime n now : Z) :
  0 < period ->
  0 <= level <= capacity ->
  0 <= n ->
  capacity + n <= Int64.max_int ->
  Int64.min_int <= now - anchorTime <= Int64.max_int ->
  let drained := Z.min (Z.max 0 ((now - anchorTime) / period)) level in
  let anchorTime' := anchorTime + drained * period in
  let ok := level - drained + n <=? capacity in
  let level' := if ok then level - drained + n else level - drained in
  leakyBucket.TryAdd n now (leakyBucket.mk capacity level period anchorTime)
  = Done (ok, leakyBucket.mk capacity level' period anchorTime').
Proof.
  intros Hperiod Hlevel Hn Hsum Hspan drained anchorTime' ok level'.
  destruct (Z.le_gt_cases anchorTime now) as [Hfwd|Hback].
  - pose proof (periods_bounds (now - anchorTime) period ltac:(lia) Hperiod)
      as [[Hp0 Hp1] Hp2].
    assert (Hd : drained = Z.min ((now - anchorTime) / period) level)
      by (subst drained; lia).
    unfold leakyBucket.TryAdd.
    destruct (Z.ltb_spec n 0); [lia|].
    rewrite leak_in_range by (simpl; unfold Int64.max_int in *; lia). simpl.
    rewrite <- Hd. fold anchorTime'. subst ok level'.
    unfold Int64.add. rewrite wrap_id
      by (unfold Int64.in_range, Int64.min_int, Int64.max_int in *; lia).
    destruct (Z.ltb_spec capacity (level - drained + n));
      destruct (Z.leb_spec (level - drained + n) capacity); try lia; reflexivity.
  - pose proof (div_nonpos (now - anchorTime) period ltac:(lia) Hperiod) as Hdiv.
    assert (Hd : drained = 0) by (subst drained; lia).
    subst ok level' anchorTime'. rewrite Hd, Z.sub_0_r, Z.add_0_r.
    unfold leakyBucket.TryAdd, leakyBucket.leak. simpl.
    destruct (Z.ltb_spec n 0); [lia|].
    rewrite Sub_exact
      by (unfold Int64.in_range, Int64.max_int, Int64.min_int in *; lia).
    destruct (Z.eqb_spec period 0); [lia|].
    pose proof (quot_nonpos (now - anchorTime) period ltac:(lia) Hperiod) as Hq.
    destruct (Z.ltb_spec 0 (Int64.quot (now - anchorTime) period)); [lia|].
    simpl. unfold Int64.add. rewrite wrap_id
      by (unfold Int64.in_range, Int64.min_int, Int64.max_int in *; lia).
    destruct (Z.ltb_spec capacity (level + n));
      destruct (Z.leb_spec (level + n) capacity); try lia; reflexivity.
Qed.

Lemma LeakyBucketRedis_TryAdd_step
      (capacity level period anchorTime n now : Z)
      (key : string) (c : redis.Client) (capacity0 period0 updated0 : Z) :
  0 < period ->
  0 <= level <= capacity ->
  0 <= n ->
  redis.reachable c = true ->
  redis.get now key c
    = Some (redis.LeakyData capacity0 level period0 anchorTime updated0) ->
  let drained := Z.min (Z.max 0 ((now - anchorTime) / period)) level in
  let anchorTime' := anchorTime + drained * period in
  let ok := level - drained + n <=? capacity in
  let level' := if ok then level - drained + n else level - drained in
  LeakyBucketRedis.TryAdd n now (LeakyBucketRedis.mk key capacity period) c
  = (ok, redis.set_expire now key
           (redis.LeakyData capacity level' period anchorTime' now) 3600 c).
Proof.
  intros Hperiod Hlevel Hn Hreach Hget drained anchorTime' ok level'.
  unfold LeakyBucketRedis.TryAdd, redis.Eval, LeakyBucketRedis.luaScript,
    time.UnixNano. simpl.
  destruct (Z.ltb_spec n 0); [lia|].
  rewrite Hreach, Hget. simpl.
  destruct (Z.eqb_spec period 0); [lia|].
  destruct (Z.ltb_spec 0 ((now - anchorTime) / period));
    destruct (Z.ltb_spec 0 level); simpl.
  - assert (Hd : drained = Z.min ((now - anchorTime) / period) level)
      by (subst drained; lia).
    subst ok level' anchorTime'. rewrite Hd.
    destruct (Z.leb_spec
                (level - Z.min ((now - anchorTime) / period) level + n) capacity);
      reflexivity.
  - assert (Hd : drained = 0) by (subst drained; lia).
    subst ok level' anchorTime'. rewrite Hd, Z.sub_0_r, Z.add_0_r.
    destruct (Z.leb_spec (level + n) capacity); reflexivity.
  - assert (Hd : drained = 0) by (subst drained; lia).
    subst ok level' anchorTime'. rewrite Hd, Z.sub_0_r, Z.add_0_r.
    destruct (Z.leb_spec (level + n) capacity); reflexivity.
  - assert (Hd : drained = 0) by (subst drained; lia).
    subst ok level' anchorTime'. rewrite Hd, Z.sub_0_r, Z.add_0_r.
    destruct (Z.leb_spec (level + n) capacity); reflexivity.
Qed.

End Steps.

(** ** Agreement of the two engines while the record lives *)

Section Agreement.

Lemma get_live now key c v d :
  redis.data c !! key = Some (redis.mkEntry v (Some d)) ->
  now < d ->
  redis.get now key c = Some v.
Proof.
  intros Hdata Hlive. unfold redis.get, redis.live. rewrite Hdata. simpl.
  destruct (Z.ltb_spec now d); [reflexivity|lia].
Qed.

Lemma get_absent now key c :
  redis.data c !! key = None -> redis.get now key c = None.
Proof. intros H. unfold redis.get. rewrite H. reflexivity. Qed.

Lemma storedLevel_set_expire_token now key cap lvl rate anchor upd c :
  storedLevel now key
    (redis.set_expire now key (redis.TokenData cap lvl rate anchor upd) 3600 c)
  = Some lvl.
Proof.
  unfold storedLevel.
  rewrite (get_live now key _ (redis.TokenData cap lvl rate anchor upd)
             (now + redis.ttl 3600)); [reflexivity| |].
  - unfold redis.set_expire. simpl. apply lookup_insert_eq.
  - unfold redis.ttl. lia.
Qed.

Lemma storedLevel_set_expire_leaky now key cap lvl rate anchor upd c :
  storedLevel now key
    (redis.set_expire now key (redis.LeakyData cap lvl rate anchor upd) 3600 c)
  = Some lvl.
Proof.
  unfold storedLevel.
  rewrite (get_live now key _ (redis.LeakyData cap lvl rate anchor upd)
             (now + redis.ttl 3600)); [reflexivity| |].
  - unfold redis.set_expire. simpl. apply lookup_insert_eq.
  - unfold redis.ttl. lia.
Qed.

Lemma runToken_agree key ops :
  forall tb c prev,
    0 < tokenBucket.refillRate tb ->
    0 <= tokenBucket.tokens tb <= tokenBucket.capacity tb ->
    tokenBucket.capacity tb < 2 ^ 62 ->
    0 <= tokenBucket.lastRefill tb < 2 ^ 62 ->
    tokenSynced key prev tb c ->
    bounded ops ->
    spaced prev ops ->
    runTokenLocal ops tb
    = Done (runTokenRemote ops
              (TokenBucketRedis.mk key (tokenBucket.capacity tb)
                 (tokenBucket.refillRate tb)) c).
Proof.
  change (2 ^ 62) with 4611686018427387904.
  induction ops as [|[n now] ops IH];
    intros [cap lvl rate anchor] c prev Hrate Hlvl Hcap Hanchor [Hreach Hdata]
           Hb Hs; simpl in *; [reflexivity|].
  apply Forall_cons in Hb as [[Hn Hnow] Hb]. simpl in Hn, Hnow.
  change (2 ^ 62) with 4611686018427387904 in Hn, Hnow.
  destruct Hs as [Hlive Hs].
  pose proof (get_live now key c _ _ Hdata Hlive) as Hget.
  rewrite (tokenBucket_TryConsume_step cap lvl rate anchor n now)
    by (unfold Int64.max_int, Int64.min_int; lia).
  rewrite (TokenBucketRedis_TryConsume_step cap lvl rate anchor n now key c
             cap rate prev) by (try assumption; lia).
  cbv zeta. simpl.
  rewrite storedLevel_set_expire_token.
  set (periods := Z.max 0 ((now - anchor) / rate)).
  set (refilled := Z.min cap (lvl + periods)).
  set (level' := if n <=? refilled then refilled - n else refilled).
  assert (Hp : 0 <= periods /\ (periods = 0 \/ anchor + periods * rate <= now)).
  { subst periods. destruct (Z.le_gt_cases anchor now).
    - pose proof (periods_bounds (now - anchor) rate ltac:(lia) Hrate). lia.
    - pose proof (div_nonpos (now - anchor) rate ltac:(lia) Hrate). lia. }
  assert (Hl' : 0 <= level' <= cap).
  { subst level' refilled. destruct (Z.leb_spec n (Z.min cap (lvl + periods))); lia. }
  specialize (IH (tokenBucket.mk cap level' rate (anchor + periods * rate))
                (redis.set_expire now key
                   (redis.TokenData cap level' rate (anchor + periods * rate) now)
                   3600 c) now).
  simpl in IH. rewrite IH; [reflexivity|lia|lia|lia|nia| |exact Hb|exact Hs].
  split; [exact Hreach|]. simpl. apply lookup_insert_eq.
Qed.

Lemma runLeaky_agree key ops :
  forall lb c prev,
    0 < leakyBucket.leakRate lb ->
    0 <= leakyBucket.queue lb <= leakyBucket.capacity lb ->
    leakyBucket.capacity lb < 2 ^ 62 ->
    0 <= leakyBucket.lastLeak lb < 2 ^ 62 ->
    leakySynced key prev lb c ->
    bounded ops ->
    spaced prev ops ->
    runLeakyLocal ops lb
    = Done (runLeakyRemote ops
              (LeakyBucketRedis.mk key (leakyBucket.capacity lb)
                 (leakyBucket.leakRate lb)) c).
Proof.
  change (2 ^ 62) with 4611686018427387904.
  induction ops as [|[n now] ops IH];
    intros [cap lvl rate anchor] c prev Hrate Hlvl Hcap Hanchor [Hreach Hdata]
           Hb Hs; simpl in *; [reflexivity|].
  apply Forall_cons in Hb as [[Hn Hnow] Hb]. simpl in Hn, Hnow.
  change (2 ^ 62) with 4611686018427387904 in Hn, Hnow.
  destruct Hs as [Hlive Hs].
  pose proof (get_live now key c _ _ Hdata Hlive) as Hget.
  rewrite (leakyBucket_TryAdd_step cap lvl rate anchor n now)
    by (unfold Int64.max_int, Int64.min_int; lia).
  rewrite (LeakyBucketRedis_TryAdd_step cap lvl rate anchor n now key c
             cap rate prev) by (try assumption; lia).
  cbv zeta. simpl.
  rewrite storedLevel_set_expire_leaky.
  set (drained := Z.min (Z.max 0 ((now - anchor) / rate)) lvl).
  set (level' := if lvl - drained + n <=? cap then lvl - drained + n
                 else lvl - drained).
  assert (Hd : 0 <= drained <= lvl
               /\ (drained = 0 \/ anchor + drained * rate <= now)).
  { subst drained. destruct (Z.le_gt_cases anchor now).
    - pose proof (periods_bounds (now - anchor) rate ltac:(lia) Hrate).
      split; [lia|]. right. nia.
    - pose proof (div_nonpos (now - anchor) rate ltac:(lia) Hrate). lia. }
  assert (Hl' : 0 <= level' <= cap).
  { subst level'. destruct (Z.leb_spec (lvl - drained + n) cap); lia. }
  specialize (IH (leakyBucket.mk cap level' rate (anchor + drained * rate))
                (redis.set_expire now key
                   (redis.LeakyData cap level' rate (anchor + drained * rate) now)
                   3600 c) now).
  simpl in IH. rewrite IH; [reflexivity|lia|lia|lia|nia| |exact Hb|exact Hs].
  split; [exact Hreach|]. simpl. apply lookup_insert_eq.
Qed.

End Agreement.




(** * Further properties of the code *)

(** ** Level bounds along whole traces *)

Section LevelBounds.

Lemma runTokenLocal_levels ops :
  forall tb,
    0 < tokenBucket.refillRate tb ->
    0 <= tokenBucket.tokens tb <= tokenBucket.capacity tb ->
    tokenBucket.capacity tb < 2 ^ 62 ->
    0 <= tokenBucket.lastRefill tb < 2 ^ 62 ->
    clocked ops ->
    exists trace,
      runTokenLocal ops tb = Done trace
      /\ levelsWithin (tokenBucket.capacity tb) trace.
Proof.
  change (2 ^ 62) with 4611686018427387904.
  induction ops as [|[n now] ops IH];
    intros [cap lvl rate anchor] Hrate Hlvl Hcap Hanchor Hc; simpl in *.
  - exists []. split; [reflexivity|constructor].
  - apply Forall_cons in Hc as [Hnow Hc]. simpl in Hnow.
    change (2 ^ 62) with 4611686018427387904 in Hnow.
    destruct (Z.ltb_spec n 0) as [Hneg|Hpos].
    + unfold tokenBucket.TryConsume.
      destruct (Z.ltb_spec n 0); [|lia]. simpl.
      destruct (IH (tokenBucket.mk cap lvl rate anchor)) as (trace & Hrun & Hlv);
        try assumption; simpl; try lia.
      rewrite Hrun. simpl. eexists; split; [reflexivity|].
      constructor; [simpl; lia|exact Hlv].
    + rewrite (tokenBucket_TryConsume_step cap lvl rate anchor n now)
        by (unfold Int64.max_int, Int64.min_int; lia).
      cbv zeta. simpl.
      set (periods := Z.max 0 ((now - anchor) / rate)).
      set (refilled := Z.min cap (lvl + periods)).
      set (level' := if n <=? refilled then refilled - n else refilled).
      assert (Hp : 0 <= periods /\ (periods = 0 \/ anchor + periods * rate <= now)).
      { subst periods. destruct (Z.le_gt_cases anchor now).
        - pose proof (periods_bounds (now - anchor) rate ltac:(lia) Hrate). lia.
        - pose proof (div_nonpos (now - anchor) rate ltac:(lia) Hrate). lia. }
      assert (Hl' : 0 <= level' <= cap).
      { subst level' refilled.
        destruct (Z.leb_spec n (Z.min cap (lvl + periods))); lia. }
      destruct (IH (tokenBucket.mk cap level' rate (anchor + periods * rate)))
        as (trace & Hrun & Hlv); try assumption; simpl; try lia; try nia.
      rewrite Hrun. simpl. eexists; split; [reflexivity|].
      constructor; [simpl; lia|exact Hlv].
Qed.

Lemma runLeakyLocal_levels ops :
  forall lb,
    0 < leakyBucket.leakRate lb ->
    0 <= leakyBucket.queue lb <= leakyBucket.capacity lb ->
    leakyBucket.capacity lb < 2 ^ 62 ->
    0 <= leakyBucket.lastLeak lb < 2 ^ 62 ->
    clocked ops ->
    Forall (fun op => fst op < 2 ^ 62) ops ->
    exists trace,
      runLeakyLocal ops lb = Done trace
      /\ levelsWithin (leakyBucket.capacity lb) trace.
Proof.
  change (2 ^ 62) with 4611686018427387904.
  induction ops as [|[n now] ops IH];
    intros [cap lvl rate anchor] Hrate Hlvl Hcap Hanchor Hc Hsz; simpl in *.
  - exists []. split; [reflexivity|constructor].
  - apply Forall_cons in Hc as [Hnow Hc]. simpl in Hnow.
    apply Forall_cons in Hsz as [Hn Hsz]. simpl in Hn.
    change (2 ^ 62) with 4611686018427387904 in Hnow, Hn.
    destruct (Z.ltb_spec n 0) as [Hneg|Hpos].
    + unfold leakyBucket.TryAdd.
      destruct (Z.ltb_spec n 0); [|lia]. simpl.
      destruct (IH (leakyBucket.mk cap lvl rate anchor)) as (trace & Hrun & Hlv);
        try assumption; simpl; try lia.
      rewrite Hrun. simpl. eexists; split; [reflexivity|].
      constructor; [simpl; lia|exact Hlv].
    + rewrite (leakyBucket_TryAdd_step cap lvl rate anchor n now)
        by (unfold Int64.max_int, Int64.min_int; lia).
      cbv zeta. simpl.
      set (drained := Z.min (Z.max 0 ((now - anchor) / rate)) lvl).
      set (level' := if lvl - drained + n <=? cap then lvl - drained + n
                     else lvl - drained).
      assert (Hd : 0 <= drained <= lvl
                   /\ (drained = 0 \/ anchor + drained * rate <= now)).
      { subst drained. destruct (Z.le_gt_cases anchor now).
        - pose proof (periods_bounds (now - anchor) rate ltac:(lia) Hrate).
          split; [lia|]. right. nia.
        - pose proof (div_nonpos (now - anchor) rate ltac:(lia) Hrate). lia. }
      assert (Hl' : 0 <= level' <= cap).
      { subst level'. destruct (Z.leb_spec (lvl - drained + n) cap); lia. }
      destruct (IH (leakyBucket.mk cap level' rate (anchor + drained * rate)))
        as (trace & Hrun & Hlv); try assumption; simpl; try lia; try nia.
      rewrite Hrun. simpl. eexists; split; [reflexivity|].
      constructor; [simpl; lia|exact Hlv].
Qed.

End LevelBounds.

(** X1. In-memory token bucket: for a bucket created full at a clock
    reading in [0, 2^62), with capacity in [0, 2^62) and a positive
    period, every sequence of TryConsume calls, of any request sizes
    (negative and up to 2^63 - 1 included) at clock readings in
    [0, 2^62) in any order, runs without panic and leaves the level in
    [0, capacity] after every call. *)
Theorem tokenBucket_level_stays_within_capacity
        (capacity period t0 : Z) (ops : list (Z * Z)) :
  0 < period ->
  0 <= capacity < 2 ^ 62 ->
  0 <= t0 < 2 ^ 62 ->
  clocked ops ->
  exists trace,
    runTokenLocal ops (tokenBucket.NewTokenBucket capacity period t0) = Done trace
    /\ levelsWithin capacity trace
    /\ length trace = length ops.
Proof.
  intros Hperiod Hcap Ht0 Hc.
  destruct (runTokenLocal_levels ops (tokenBucket.NewTokenBucket capacity period t0))
    as (trace & Hrun & Hlv); simpl; try assumption; try lia.
  exists trace. split; [exact Hrun|]. split; [exact Hlv|].
  clear Hlv Hc. revert trace Hrun.
  generalize (tokenBucket.NewTokenBucket capacity period t0).
  induction ops as [|[n now] ops IH]; intros tb trace Hrun; simpl in Hrun.
  - injection Hrun as <-. reflexivity.
  - destruct (tokenBucket.TryConsume n now tb) as [[r tb']|]; simpl in Hrun;
      [|discriminate].
    destruct (runTokenLocal ops tb') as [rest|] eqn:Hrest; simpl in Hrun;
      [|discriminate].
    injection Hrun as <-. simpl. f_equal. eapply IH. exact Hrest.
Qed.

Lemma tokenBucket_level_stays_within_capacity_witness :
  exists trace,
    runTokenLocal [(7, 0); (-3, 5); (9223372036854775807, 2 * time.Second); (4, time.Second)]
      (tokenBucket.NewTokenBucket 10 time.Second 0) = Done trace
    /\ levelsWithin 10 trace.
Proof.
  destruct (tokenBucket_level_stays_within_capacity 10 time.Second 0
              [(7, 0); (-3, 5); (9223372036854775807, 2 * time.Second);
               (4, time.Second)])
    as (trace & Hrun & Hlv & _).
  - reflexivity.
  - change (2 ^ 62) with 4611686018427387904. lia.
  - change (2 ^ 62) with 4611686018427387904. lia.
  - unfold clocked. change (2 ^ 62) with 4611686018427387904.
    repeat (constructor; [simpl; unfold time.Second; lia|]). constructor.
  - exists trace. split; [exact Hrun|exact Hlv].
Defined.

(** X2. In-memory leaky bucket: under the same conditions and with every
    request size below 2^62, every sequence of TryAdd calls runs without
    panic and leaves the queue length in [0, capacity] after every
    call. *)
Theorem leakyBucket_level_stays_within_capacity
        (capacity period t0 : Z) (ops : list (Z * Z)) :
  0 < period ->
  0 <= capacity < 2 ^ 62 ->
  0 <= t0 < 2 ^ 62 ->
  clocked ops ->
  Forall (fun op => fst op < 2 ^ 62) ops ->
  exists trace,
    runLeakyLocal ops (leakyBucket.NewLeakyBucket capacity period t0) = Done trace
    /\ levelsWithin capacity trace.
Proof.
  intros Hperiod Hcap Ht0 Hc Hsz.
  apply (runLeakyLocal_levels ops (leakyBucket.NewLeakyBucket capacity period t0));
    simpl; try assumption; lia.
Qed.

Lemma leakyBucket_level_stays_within_capacity_witness :
  exists trace,
    runLeakyLocal [(3, 0); (-1, 7); (4, time.Second); (2, 0)]
      (leakyBucket.NewLeakyBucket 5 (200 * time.Millisecond) 0) = Done trace
    /\ levelsWithin 5 trace.
Proof.
  apply (leakyBucket_level_stays_within_capacity 5 (200 * time.Millisecond) 0).
  - reflexivity.
  - change (2 ^ 62) with 4611686018427387904. lia.
  - change (2 ^ 62) with 4611686018427387904. lia.
  - unfold clocked. change (2 ^ 62) with 4611686018427387904.
    repeat (constructor; [simpl; unfold time.Second; lia|]). constructor.
  - change (2 ^ 62) with 4611686018427387904.
    repeat (constructor; [simpl; lia|]). constructor.
Defined.

(** ** What a script run does to the shard *)

Section ScriptFootprint.

Lemma get_Some_inv now key c v :
  redis.get now key c = Some v ->
  exists e, redis.data c !! key = Some e /\ redis.value e = v.
Proof.
  unfold redis.get. destruct (redis.data c !! key) as [e|]; [|discriminate].
  destruct (redis.live now e); [|discriminate].
  intros [= <-]. exists e. split; reflexivity.
Qed.

(** A token script run leaves the shard as it was or rewrites the one
    record of its key, with a level in [0, capacity]. *)
Lemma TokenBucketRedis_TryConsume_footprint key cap rate n now c :
  0 < rate ->
  0 <= cap ->
  tokenRecordOk key cap c ->
  let rc := TokenBucketRedis.TryConsume n now (TokenBucketRedis.mk key cap rate) c in
  redis.reachable (snd rc) = redis.reachable c
  /\ tokenRecordOk key cap (snd rc)
  /\ (forall k, k <> key -> redis.data (snd rc) !! k = redis.data c !! k).
Proof.
  intros Hrate Hcap Hok.
  unfold TokenBucketRedis.TryConsume, redis.Eval. simpl.
  destruct (Z.ltb_spec n 0) as [Hneg|Hn]; simpl; [auto|].
  destruct (redis.reachable c) eqn:Hreach; simpl; [|auto].
  destruct (redis.get now key c) as [p|] eqn:Hget.
  - destruct (get_Some_inv _ _ _ _ Hget) as (e & He & Hv).
    unfold tokenRecordOk in Hok. rewrite He, Hv in Hok.
    destruct p as [raw|cap0 lvl rate0 anchor upd|]; try contradiction.
    pose proof (TokenBucketRedis_TryConsume_step cap lvl rate anchor n now key c
                  cap0 rate0 upd Hrate Hok Hn Hreach Hget) as Hstep.
    unfold TokenBucketRedis.TryConsume, redis.Eval in Hstep. simpl in Hstep.
    destruct (Z.ltb_spec n 0); [lia|]. rewrite Hreach in Hstep.
    rewrite Hstep. simpl.
    split; [try reflexivity; exact Hreach|]. split.
    + unfold tokenRecordOk. simpl. rewrite lookup_insert_eq. simpl.
      set (periods := Z.max 0 ((now - anchor) / rate)).
      destruct (Z.leb_spec n (Z.min cap (lvl + periods))); lia.
    + intros k Hk. simpl. apply lookup_insert_ne. congruence.
  - pose proof (TokenBucketRedis_TryConsume_new cap rate n now key c
                  ltac:(lia) Hn Hreach Hget) as Hstep.
    unfold TokenBucketRedis.TryConsume, redis.Eval in Hstep. simpl in Hstep.
    destruct (Z.ltb_spec n 0); [lia|]. rewrite Hreach in Hstep.
    rewrite Hstep. simpl.
    split; [try reflexivity; exact Hreach|]. split.
    + unfold tokenRecordOk. simpl. rewrite lookup_insert_eq. simpl.
      destruct (Z.leb_spec n cap); lia.
    + intros k Hk. simpl. apply lookup_insert_ne. congruence.
Qed.

Lemma LeakyBucketRedis_TryAdd_footprint key cap rate n now c :
  0 < rate ->
  0 <= cap ->
  leakyRecordOk key cap c ->
  let rc := LeakyBucketRedis.TryAdd n now (LeakyBucketRedis.mk key cap rate) c in
  redis.reachable (snd rc) = redis.reachable c
  /\ leakyRecordOk key cap (snd rc)
  /\ (forall k, k <> key -> redis.data (snd rc) !! k = redis.data c !! k).
Proof.
  intros Hrate Hcap Hok.
  unfold LeakyBucketRedis.TryAdd, redis.Eval. simpl.
  destruct (Z.ltb_spec n 0) as [Hneg|Hn]; simpl; [auto|].
  destruct (redis.reachable c) eqn:Hreach; simpl; [|auto].
  destruct (redis.get now key c) as [p|] eqn:Hget.
  - destruct (get_Some_inv _ _ _ _ Hget) as (e & He & Hv).
    unfold leakyRecordOk in Hok. rewrite He, Hv in Hok.
    destruct p as [raw| |cap0 lvl rate0 anchor upd]; try contradiction.
    pose proof (LeakyBucketRedis_TryAdd_step cap lvl rate anchor n now key c
                  cap0 rate0 upd Hrate Hok Hn Hreach Hget) as Hstep.
    unfold LeakyBucketRedis.TryAdd, redis.Eval in Hstep. simpl in Hstep.
    destruct (Z.ltb_spec n 0); [lia|]. rewrite Hreach in Hstep.
    rewrite Hstep. simpl.
    split; [try reflexivity; exact Hreach|]. split.
    + unfold leakyRecordOk. simpl. rewrite lookup_insert_eq. simpl.
      set (drained := Z.min (Z.max 0 ((now - anchor) / rate)) lvl).
      assert (0 <= drained <= lvl) by (subst drained; lia).
      destruct (Z.leb_spec (lvl - drained + n) cap); lia.
    + intros k Hk. simpl. apply lookup_insert_ne. congruence.
  - pose proof (LeakyBucketRedis_TryAdd_new cap rate n now key c
                  ltac:(lia) Hn Hreach Hget) as Hstep.
    unfold LeakyBucketRedis.TryAdd, redis.Eval in Hstep. simpl in Hstep.
    destruct (Z.ltb_spec n 0); [lia|]. rewrite Hreach in Hstep.
    rewrite Hstep. simpl.
    split; [try reflexivity; exact Hreach|]. split.
    + unfold leakyRecordOk. simpl. rewrite lookup_insert_eq. simpl.
      destruct (Z.leb_spec n cap); lia.
    + intros k Hk. simpl. apply lookup_insert_ne. congruence.
Qed.

Lemma storedLevel_of_tokenRecordOk now key cap c :
  tokenRecordOk key cap c ->
  match storedLevel now key c with
  | Some level => 0 <= level <= cap
  | None => True
  end.
Proof.
  unfold tokenRecordOk, storedLevel, redis.get.
  destruct (redis.data c !! key) as [e|]; [|exact (fun _ => I)].
  destruct (redis.live now e); [|exact (fun _ => I)].
  destruct (redis.value e); simpl; intros H; try contradiction; exact H.
Qed.

Lemma storedLevel_of_leakyRecordOk now key cap c :
  leakyRecordOk key cap c ->
  match storedLevel now key c with
  | Some level => 0 <= level <= cap
  | None => True
  end.
Proof.
  unfold leakyRecordOk, storedLevel, redis.get.
  destruct (redis.data c !! key) as [e|]; [|exact (fun _ => I)].
  destruct (redis.live now e); [|exact (fun _ => I)].
  destruct (redis.value e); simpl; intros H; try contradiction; exact H.
Qed.

End ScriptFootprint.



(** ** What [Acquire] does to the service *)

Section AcquireFootprint.

Import RedisRateLimiterService.

(** [Acquire] on a service with at least one instance: the remote
    engine of the routed instance decides, and the service changes in
    that instance and in the request counters only. *)
Lemma Acquire_shape key n algorithm now rrs :
  (1 <= length (RedisManager.clients (redisManager rrs)))%nat ->
  exists i c,
    RedisManager.GetClient key (redisManager rrs) = Done (Some i)
    /\ RedisManager.clients (redisManager rrs) !! i = Some c
    /\ Acquire key n algorithm now rrs
       = Done (fst (acquireRedis key n algorithm now rrs c),
               set_metrics
                 (MetricsCollector.RecordRequest
                    (fst (acquireRedis key n algorithm now rrs c))
                    (negb (fst (acquireRedis key n algorithm now rrs c)))
                    (metrics rrs))
                 (store i (snd (acquireRedis key n algorithm now rrs c)) rrs)).
Proof.
  intros HN.
  destruct (GetClient_some key (redisManager rrs) HN) as (i & c & Hi & Hc).
  exists i, c. split; [exact Hi|]. split; [exact Hc|].
  unfold Acquire. rewrite Hi. simpl. unfold deref. rewrite Hc. simpl.
  destruct (acquireRedis key n algorithm now rrs c) as [r c']. reflexivity.
Qed.

(** A script run leaves the shard as it was or rewrites the record of
    its own key. *)
Lemma TryConsume_writes_only_key n now tbr c :
  snd (TokenBucketRedis.TryConsume n now tbr c) = c
  \/ exists v,
      snd (TokenBucketRedis.TryConsume n now tbr c)
      = redis.set_expire now (TokenBucketRedis.key tbr) v 3600 c.
Proof.
  unfold TokenBucketRedis.TryConsume, redis.Eval, TokenBucketRedis.luaScript,
    time.UnixNano.
  destruct (n <? 0); [left; reflexivity|].
  destruct (redis.reachable c); [|left; reflexivity].
  destruct (redis.get now (TokenBucketRedis.key tbr) c) as [[raw|a b d e f|a b d e f]|];
    simpl; try (left; reflexivity).
  - destruct (TokenBucketRedis.refillRate tbr =? 0).
    + destruct (0 <? now - e); simpl; [left; reflexivity|].
      destruct (n <=? b); simpl; right; eexists; reflexivity.
    + destruct (0 <? (now - e) `div` TokenBucketRedis.refillRate tbr); simpl;
        match goal with |- context [if ?b then _ else _] => destruct b end;
        simpl; right; eexists; reflexivity.
  - destruct (TokenBucketRedis.refillRate tbr =? 0).
    + destruct (0 <? now - now); simpl; [left; reflexivity|].
      destruct (n <=? TokenBucketRedis.capacity tbr); simpl; right;
        eexists; reflexivity.
    + destruct (0 <? (now - now) `div` TokenBucketRedis.refillRate tbr); simpl;
        match goal with |- context [if ?b then _ else _] => destruct b end;
        simpl; right; eexists; reflexivity.
Qed.

Lemma TryAdd_writes_only_key n now lbr c :
  snd (LeakyBucketRedis.TryAdd n now lbr c) = c
  \/ exists v,
      snd (LeakyBucketRedis.TryAdd n now lbr c)
      = redis.set_expire now (LeakyBucketRedis.key lbr) v 3600 c.
Proof.
  unfold LeakyBucketRedis.TryAdd, redis.Eval, LeakyBucketRedis.luaScript,
    time.UnixNano.
  destruct (n <? 0); [left; reflexivity|].
  destruct (redis.reachable c); [|left; reflexivity].
  destruct (redis.get now (LeakyBucketRedis.key lbr) c) as [[raw|a b d e f|a b d e f]|];
    simpl; try (left; reflexivity).
  - destruct (LeakyBucketRedis.leakRate lbr =? 0).
    + destruct ((0 <? now - e) && (0 <? b)); simpl;
        match goal with |- context [if ?b then _ else _] => destruct b end;
        simpl; right; eexists; reflexivity.
    + destruct ((0 <? (now - e) `div` LeakyBucketRedis.leakRate lbr) && (0 <? b));
        simpl;
        match goal with |- context [if ?b then _ else _] => destruct b end;
        simpl; right; eexists; reflexivity.
  - destruct (LeakyBucketRedis.leakRate lbr =? 0).
    + destruct ((0 <? now - now) && (0 <? 0)); simpl;
        match goal with |- context [if ?b then _ else _] => destruct b end;
        simpl; right; eexists; reflexivity.
    + destruct ((0 <? (now - now) `div` LeakyBucketRedis.leakRate lbr) && (0 <? 0));
        simpl;
        match goal with |- context [if ?b then _ else _] => destruct b end;
        simpl; right; eexists; reflexivity.
Qed.

Lemma append_cancel_l (p a b : string) :
  (p ++ a)%string = (p ++ b)%string -> a = b.
Proof.
  induction p as [|ch p IH]; simpl; [auto|].
  intros [= H]. apply IH, H.
Qed.

Lemma acquireRedis_writes_only_key key n algorithm now rrs c :
  snd (acquireRedis key n algorithm now rrs c) = c
  \/ exists v,
      snd (acquireRedis key n algorithm now rrs c)
      = redis.set_expire now (bucketKey algorithm key) v 3600 c.
Proof.
  unfold acquireRedis, bucketKey.
  destruct (String.eqb algorithm "leaky_bucket").
  - exact (TryAdd_writes_only_key n now
             (LeakyBucketRedis.NewLeakyBucketRedis key (DefaultCapacity rrs)
                (DefaultRefill rrs)) c).
  - exact (TryConsume_writes_only_key n now
             (TokenBucketRedis.NewTokenBucketRedis key (DefaultCapacity rrs)
                (DefaultRefill rrs)) c).
Qed.

End AcquireFootprint.

(** X4. Isolation of keys.  An [Acquire] that returns changes at most one
    stored record: on every instance of the service, whatever is stored
    under a key other than the bucket key of the requested algorithm and
    caller is what it was before, and instances other than the routed
    one keep all their records.  Bucket keys of the two algorithms never
    coincide, and bucket keys of different callers differ, so no
    admission touches the other algorithm's bucket or another caller's
    bucket. *)
Theorem Acquire_touches_one_record
        (key algorithm : string) (n now : Z)
        (rrs rrs' : RedisRateLimiterService.t) (r : bool) :
  RedisRateLimiterService.Acquire key n algorithm now rrs = Done (r, rrs') ->
  (forall (i : nat) (c : redis.Client),
      RedisManager.clients (RedisRateLimiterService.redisManager rrs) !! i = Some c ->
      exists c',
        RedisManager.clients (RedisRateLimiterService.redisManager rrs') !! i = Some c'
        /\ redis.reachable c' = redis.reachable c
        /\ forall k, k <> bucketKey algorithm key ->
                     redis.data c' !! k = redis.data c !! k)
  /\ (forall key' : string,
         bucketKey "token_bucket" key <> bucketKey "leaky_bucket" key')
  /\ (forall key' algorithm',
         key' <> key -> bucketKey algorithm' key' <> bucketKey algorithm' key).
Proof.
  intros Hrun. split; [|split].
  - assert (HN : (1 <= length (RedisManager.clients
                                 (RedisRateLimiterService.redisManager rrs)))%nat).
    { unfold RedisRateLimiterService.Acquire, RedisManager.GetClient in Hrun.
      destruct (RedisManager.clients (RedisRateLimiterService.redisManager rrs));
        [discriminate|simpl; lia]. }
    destruct (Acquire_shape key n algorithm now rrs HN) as (i0 & c0 & _ & Hc0 & Heq).
    rewrite Heq in Hrun. injection Hrun as _ <-.
    intros i c Hc. simpl.
    destruct (Nat.eq_dec i0 i) as [->|Hne].
    + rewrite list_lookup_insert_eq by (eapply lookup_lt_Some; exact Hc).
      eexists. split; [reflexivity|].
      assert (c0 = c) by congruence. subst c0.
      destruct (acquireRedis_writes_only_key key n algorithm now rrs c)
        as [->|[v ->]].
      * split; [reflexivity|]. intros; reflexivity.
      * split; [reflexivity|]. intros k Hk. simpl.
        apply lookup_insert_ne. congruence.
    + rewrite list_lookup_insert_ne by exact Hne.
      exists c. split; [exact Hc|]. split; [reflexivity|]. intros; reflexivity.
  - intros key'. unfold bucketKey. simpl. discriminate.
  - intros key' algorithm' Hne. unfold bucketKey.
    destruct (String.eqb algorithm' "leaky_bucket");
      unfold LeakyBucketRedis.NewLeakyBucketRedis,
        TokenBucketRedis.NewTokenBucketRedis;
      cbn [LeakyBucketRedis.key TokenBucketRedis.key];
      intros H; apply Hne; exact (append_cancel_l _ _ _ H).
Qed.

Lemma Acquire_touches_one_record_witness :
  let s0 := freshService 10 time.Second in
  let s1 := match RedisRateLimiterService.Acquire "bob" 2 "token_bucket" 0 s0 with
            | Done (_, s) => s
            | Panicked => s0
            end in
  let s2 := match RedisRateLimiterService.Acquire "alice" 3 "token_bucket" 0 s1 with
            | Done (_, s) => s
            | Panicked => s1
            end in
  shardLevel 0 (bucketKey "token_bucket" "bob") s2
  = shardLevel 0 (bucketKey "token_bucket" "bob") s1.
Proof.
  intros s0 s1 s2.
  pose (c := match RedisManager.clients (RedisRateLimiterService.redisManager s1)
                   !! 0%nat with
             | Some c => c
             | None => redis.mkClient true ∅
             end).
  assert (Hc : RedisManager.clients (RedisRateLimiterService.redisManager s1)
                 !! 0%nat = Some c) by (vm_compute; reflexivity).
  assert (Hrun : RedisRateLimiterService.Acquire "alice" 3 "token_bucket" 0 s1
                 = Done (true, s2)) by (vm_compute; reflexivity).
  destruct (proj1 (Acquire_touches_one_record "alice" "token_bucket" 3 0 s1 s2
                     true Hrun) 0%nat c Hc) as (c' & Hc' & _ & Hkeep).
  unfold shardLevel. rewrite Hc', Hc.
  change (storedLevel 0 (bucketKey "token_bucket" "bob") c'
          = storedLevel 0 (bucketKey "token_bucket" "bob") c).
  unfold storedLevel, redis.get.
  rewrite (Hkeep (bucketKey "token_bucket" "bob")); [reflexivity|].
  vm_compute. discriminate.
Defined.

(** X5. The fallback is never used by [Acquire].  For every service with
    at least one configured instance and every request, [Acquire]
    returns without panic, decides by the remote engine of the routed
    instance, and leaves both in-memory fallback maps, the configuration
    and the number of instances as they were. *)
Theorem Acquire_never_uses_fallback
        (key algorithm : string) (n now : Z) (rrs : RedisRateLimiterService.t) :
  (1 <= length (RedisManager.clients (RedisRateLimiterService.redisManager rrs)))%nat ->
  exists r rrs',
    RedisRateLimiterService.Acquire key n algorithm now rrs = Done (r, rrs')
    /\ RedisRateLimiterService.tokenBuckets rrs'
       = RedisRateLimiterService.tokenBuckets rrs
    /\ RedisRateLimiterService.leakyBuckets rrs'
       = RedisRateLimiterService.leakyBuckets rrs
    /\ RedisRateLimiterService.config rrs' = RedisRateLimiterService.config rrs
    /\ length (RedisManager.clients (RedisRateLimiterService.redisManager rrs'))
       = length (RedisManager.clients (RedisRateLimiterService.redisManager rrs)).
Proof.
  intros HN.
  destruct (Acquire_shape key n algorithm now rrs HN) as (i & c & _ & _ & Heq).
  eexists _, _. split; [exact Heq|]. simpl.
  repeat split; try reflexivity. apply length_insert.
Qed.

Lemma Acquire_never_uses_fallback_witness :
  exists r rrs',
    RedisRateLimiterService.Acquire "fallback_user" 1 "token_bucket" 0
      unreachableService = Done (r, rrs')
    /\ RedisRateLimiterService.tokenBuckets rrs'
       = RedisRateLimiterService.tokenBuckets unreachableService.
Proof.
  destruct (Acquire_never_uses_fallback "fallback_user" "token_bucket" 1 0
              unreachableService ltac:(simpl; lia))
    as (r & rrs' & Hrun & Htb & _).
  exists r, rrs'. split; [exact Hrun|exact Htb].
Defined.

(** X6. Request counters.  For every service with at least one instance
    whose counters are below 2^63 - 1, an [Acquire] adds exactly one to
    the total, adds one to the successful count when it allows and one
    to the rate-limited count when it refuses, and never changes the
    error count: a refusal caused by an unreachable shard or a script
    error is counted as rate-limited too. *)
Theorem Acquire_counts_request_once
        (key algorithm : string) (n now : Z)
        (rrs rrs' : RedisRateLimiterService.t) (r : bool) :
  let m := RedisRateLimiterService.metrics rrs in
  let m' := RedisRateLimiterService.metrics rrs' in
  0 <= MetricsCollector.totalRequests m < Int64.max_int ->
  0 <= MetricsCollector.successfulRequests m < Int64.max_int ->
  0 <= MetricsCollector.rateLimitedRequests m < Int64.max_int ->
  RedisRateLimiterService.Acquire key n algorithm now rrs = Done (r, rrs') ->
  MetricsCollector.totalRequests m' = MetricsCollector.totalRequests m + 1
  /\ MetricsCollector.errorRequests m' = MetricsCollector.errorRequests m
  /\ MetricsCollector.successfulRequests m'
     = MetricsCollector.successfulRequests m + (if r then 1 else 0)
  /\ MetricsCollector.rateLimitedRequests m'
     = MetricsCollector.rateLimitedRequests m + (if r then 0 else 1).
Proof.
  intros m m' Ht Hs Hl Hrun. subst m m'.
  assert (HN : (1 <= length (RedisManager.clients
                               (RedisRateLimiterService.redisManager rrs)))%nat).
  { unfold RedisRateLimiterService.Acquire, RedisManager.GetClient in Hrun.
    destruct (RedisManager.clients (RedisRateLimiterService.redisManager rrs));
      [discriminate|simpl; lia]. }
  destruct (Acquire_shape key n algorithm now rrs HN) as (i & c & _ & _ & Heq).
  rewrite Heq in Hrun. injection Hrun as Hr <-. rewrite Hr. simpl.
  unfold MetricsCollector.RecordRequest, Int64.add.
  destruct r; simpl;
    rewrite !wrap_id
      by (unfold Int64.in_range, Int64.min_int, Int64.max_int in *; lia);
    repeat split; lia.
Qed.

Lemma Acquire_counts_request_once_witness :
  exists rrs',
    RedisRateLimiterService.Acquire "fallback_user" 1 "token_bucket" 0
      unreachableService = Done (false, rrs')
    /\ MetricsCollector.errorRequests (RedisRateLimiterService.metrics rrs') = 0
    /\ MetricsCollector.rateLimitedRequests (RedisRateLimiterService.metrics rrs') = 1.
Proof.
  pose (s1 := match RedisRateLimiterService.Acquire "fallback_user" 1 "token_bucket" 0
                      unreachableService with
              | Done (_, s) => s
              | Panicked => unreachableService
              end).
  pose proof (Acquire_counts_request_once "fallback_user" "token_bucket" 1 0
                unreachableService s1 false
                ltac:(simpl; unfold Int64.max_int; lia)
                ltac:(simpl; unfold Int64.max_int; lia)
                ltac:(simpl; unfold Int64.max_int; lia)
                ltac:(vm_compute; reflexivity)) as (_ & He & _ & Hl).
  exists s1. split; [vm_compute; reflexivity|]. split; [exact He|exact Hl].
Defined.

(** X7. Without instances the service cannot answer.  [Acquire] panics if
    and only if the manager was built from an empty list of instances
    (the index is the hash modulo the number of clients), and with an
    empty list [GetStatus] panics as well; nothing is checked when the
    service is built. *)
Theorem no_instance_panics
        (key algorithm : string) (n now : Z) (rrs : RedisRateLimiterService.t) :
  (RedisRateLimiterService.Acquire key n algorithm now rrs = Panicked
   <-> RedisManager.clients (RedisRateLimiterService.redisManager rrs) = [])
  /\ (RedisManager.clients (RedisRateLimiterService.redisManager rrs) = [] ->
      RedisRateLimiterService.GetStatus key now rrs = Panicked)
  /\ RedisRateLimiterService.Acquire key n algorithm now
       (RedisRateLimiterService.NewRedisRateLimiterService
          (RedisRateLimiterService.config rrs) [])
     = Panicked.
Proof.
  split; [split|split].
  - intros Hp.
    destruct (RedisManager.clients (RedisRateLimiterService.redisManager rrs))
      as [|c cs] eqn:Hcl; [reflexivity|exfalso].
    destruct (Acquire_never_uses_fallback key algorithm n now rrs) as (r & s & Hrun & _).
    + rewrite Hcl. simpl. lia.
    + congruence.
  - intros Hcl. unfold RedisRateLimiterService.Acquire, RedisManager.GetClient.
    rewrite Hcl. reflexivity.
  - intros Hcl.
    unfold RedisRateLimiterService.GetStatus,
      RedisRateLimiterService.getTokenBucketStatus, RedisManager.GetClient.
    rewrite Hcl. reflexivity.
  - reflexivity.
Qed.

(** ** A zero period *)

Section ZeroPeriod.

Import RedisRateLimiterService.

Lemma GetClient_single key c :
  RedisManager.GetClient key (RedisManager.mk [c]) = Done (Some 0%nat).
Proof.
  unfold RedisManager.GetClient. simpl.
  rewrite Z.rem_1_r. reflexivity.
Qed.

Lemma TokenBucketRedis_TryConsume_new_zero_period (capacity n now : Z)
      (key : string) (c : redis.Client) :
  0 <= n ->
  redis.reachable c = true ->
  redis.get now key c = None ->
  TokenBucketRedis.TryConsume n now (TokenBucketRedis.mk key capacity 0) c
  = (n <=? capacity,
     redis.set_expire now key
       (redis.TokenData capacity (if n <=? capacity then capacity - n else capacity)
          0 now now) 3600 c).
Proof.
  intros Hn Hreach Hget.
  unfold TokenBucketRedis.TryConsume, redis.Eval, TokenBucketRedis.luaScript,
    time.UnixNano. simpl.
  destruct (Z.ltb_spec n 0); [lia|].
  rewrite Hreach, Hget. simpl. rewrite Z.sub_diag. simpl.
  destruct (Z.leb_spec n capacity); reflexivity.
Qed.

End ZeroPeriod.



(** ** Lazy refill and drain across calls *)

Section Composition.

Lemma div_sub_periods x p k :
  0 < p -> (x - k * p) / p = x / p - k.
Proof.
  intros Hp. replace (x - k * p) with (x + (- k) * p) by lia.
  rewrite Z.div_add by lia. lia.
Qed.

Lemma tokenBucket_GetStatus_in_range (capacity level period anchorTime now : Z) :
  0 < period ->
  0 <= level <= capacity ->
  anchorTime <= now ->
  capacity + (now - anchorTime) <= Int64.max_int ->
  let periods := (now - anchorTime) / period in
  let anchorTime' := anchorTime + periods * period in
  tokenBucket.GetStatus now (tokenBucket.mk capacity level period anchorTime)
  = Done ((Z.min capacity (level + periods), capacity, anchorTime' + period),
          tokenBucket.mk capacity (Z.min capacity (level + periods)) period
            anchorTime').
Proof.
  intros Hperiod Hlevel Hnow Hfit periods anchorTime'.
  unfold tokenBucket.GetStatus.
  rewrite refill_in_range by (simpl; lia). simpl. reflexivity.
Qed.

Lemma leakyBucket_GetStatus_in_range (capacity level period anchorTime now : Z) :
  0 < period ->
  0 <= level <= Int64.max_int ->
  anchorTime <= now ->
  now - anchorTime <= Int64.max_int ->
  let drained := Z.min ((now - anchorTime) / period) level in
  let anchorTime' := anchorTime + drained * period in
  leakyBucket.GetStatus now (leakyBucket.mk capacity level period anchorTime)
  = Done ((level - drained, capacity, anchorTime' + period),
          leakyBucket.mk capacity (level - drained) period anchorTime').
Proof.
  intros Hperiod Hlevel Hnow Hfit drained anchorTime'.
  unfold leakyBucket.GetStatus.
  rewrite leak_in_range by (simpl; lia). simpl. reflexivity.
Qed.

End Composition.

(** X9. In-memory token bucket: a status query between two admissions
    changes nothing for the later one.  For clock readings
    anchor <= t1 <= t2 in range, a GetStatus at t1 followed by
    TryConsume(n) at t2 gives the same answer and the same bucket as
    TryConsume(n) at t2 alone: the refill advances the anchor by whole
    periods only, so the fraction of a period already elapsed is kept. *)
Theorem tokenBucket_status_query_is_transparent
        (capacity level period anchorTime n t1 t2 : Z) :
  0 < period ->
  0 <= level <= capacity ->
  0 <= n ->
  anchorTime <= t1 <= t2 ->
  capacity + (t2 - anchorTime) <= Int64.max_int ->
  let tb := tokenBucket.mk capacity level period anchorTime in
  ('(_, tb1) ← tokenBucket.GetStatus t1 tb; tokenBucket.TryConsume n t2 tb1)
  = tokenBucket.TryConsume n t2 tb.
Proof.
  intros Hperiod Hlevel Hn Ht Hfit tb. subst tb.
  pose proof (periods_bounds (t1 - anchorTime) period ltac:(lia) Hperiod)
    as [[Hp0 Hp1] Hp2].
  pose proof (periods_bounds (t2 - anchorTime) period ltac:(lia) Hperiod)
    as [[Hq0 Hq1] Hq2].
  assert (Hmono : (t1 - anchorTime) / period <= (t2 - anchorTime) / period)
    by (apply Z.div_le_mono; lia).
  rewrite tokenBucket_GetStatus_in_range by lia. simpl.
  rewrite !tokenBucket_TryConsume_in_range by lia. cbv zeta.
  set (p1 := (t1 - anchorTime) / period) in *.
  set (p2 := (t2 - anchorTime) / period) in *.
  replace (t2 - (anchorTime + p1 * period)) with (t2 - anchorTime - p1 * period)
    by lia.
  rewrite div_sub_periods by exact Hperiod. fold p2.
  replace (Z.min capacity (Z.min capacity (level + p1) + (p2 - p1)))
    with (Z.min capacity (level + p2)) by lia.
  replace (anchorTime + p1 * period + (p2 - p1) * period)
    with (anchorTime + p2 * period) by lia.
  reflexivity.
Qed.

Lemma tokenBucket_status_query_is_transparent_witness :
  let tb := tokenBucket.mk 10 2 time.Second 0 in
  ('(_, tb1) ← tokenBucket.GetStatus (1500 * time.Millisecond) tb;
   tokenBucket.TryConsume 4 (2 * time.Second) tb1)
  = tokenBucket.TryConsume 4 (2 * time.Second) tb.
Proof.
  intros tb.
  apply (tokenBucket_status_query_is_transparent 10 2 time.Second 0 4
           (1500 * time.Millisecond) (2 * time.Second)).
  - reflexivity.
  - lia.
  - lia.
  - unfold time.Millisecond, time.Second. lia.
  - unfold time.Second, Int64.max_int. lia.
Defined.

(** X10. In-memory leaky bucket: the same transparency.  For clock
    readings anchor <= t1 <= t2 in range, a GetStatus at t1 followed by
    TryAdd(n) at t2 gives the same answer and the same bucket as
    TryAdd(n) at t2 alone. *)
Theorem leakyBucket_status_query_is_transparent
        (capacity level period anchorTime n t1 t2 : Z) :
  0 < period ->
  0 <= level <= capacity ->
  0 <= n ->
  capacity + n <= Int64.max_int ->
  anchorTime <= t1 <= t2 ->
  t2 - anchorTime <= Int64.max_int ->
  let lb := leakyBucket.mk capacity level period anchorTime in
  ('(_, lb1) ← leakyBucket.GetStatus t1 lb; leakyBucket.TryAdd n t2 lb1)
  = leakyBucket.TryAdd n t2 lb.
Proof.
  intros Hperiod Hlevel Hn Hsum Ht Hfit lb. subst lb.
  pose proof (periods_bounds (t1 - anchorTime) period ltac:(lia) Hperiod)
    as [[Hp0 Hp1] Hp2].
  pose proof (periods_bounds (t2 - anchorTime) period ltac:(lia) Hperiod)
    as [[Hq0 Hq1] Hq2].
  assert (Hmono : (t1 - anchorTime) / period <= (t2 - anchorTime) / period)
    by (apply Z.div_le_mono; lia).
  rewrite leakyBucket_GetStatus_in_range by (unfold Int64.max_int in *; lia). simpl.
  set (p1 := (t1 - anchorTime) / period) in *.
  set (p2 := (t2 - anchorTime) / period) in *.
  set (d1 := Z.min p1 level).
  assert (Hd1 : 0 <= d1 <= level /\ d1 <= p1) by (subst d1; lia).
  rewrite (leakyBucket_TryAdd_step capacity (level - d1) period
             (anchorTime + d1 * period) n t2)
    by (unfold Int64.max_int, Int64.min_int in *; nia).
  rewrite (leakyBucket_TryAdd_step capacity level period anchorTime n t2)
    by (unfold Int64.max_int, Int64.min_int in *; lia).
  cbv zeta.
  replace (t2 - (anchorTime + d1 * period)) with (t2 - anchorTime - d1 * period)
    by lia.
  rewrite div_sub_periods by exact Hperiod. fold p2.
  replace (Z.min (Z.max 0 (p2 - d1)) (level - d1))
    with (Z.min (Z.max 0 p2) level - d1) by lia.
  replace (level - d1 - (Z.min (Z.max 0 p2) level - d1))
    with (level - Z.min (Z.max 0 p2) level) by lia.
  replace (anchorTime + d1 * period + (Z.min (Z.max 0 p2) level - d1) * period)
    with (anchorTime + Z.min (Z.max 0 p2) level * period) by lia.
  reflexivity.
Qed.

Lemma leakyBucket_status_query_is_transparent_witness :
  let lb := leakyBucket.mk 5 5 (200 * time.Millisecond) 0 in
  ('(_, lb1) ← leakyBucket.GetStatus (300 * time.Millisecond) lb;
   leakyBucket.TryAdd 2 (500 * time.Millisecond) lb1)
  = leakyBucket.TryAdd 2 (500 * time.Millisecond) lb.
Proof.
  intros lb.
  apply (leakyBucket_status_query_is_transparent 5 5 (200 * time.Millisecond) 0 2
           (300 * time.Millisecond) (500 * time.Millisecond)).
  - reflexivity.
  - lia.
  - lia.
  - unfold Int64.max_int. lia.
  - unfold time.Millisecond. lia.
  - unfold time.Millisecond, Int64.max_int. lia.
Defined.

(** X11. In-memory token bucket: the status query reports
    min(capacity, level + whole periods elapsed) tokens and a next
    refill time that lies strictly after the clock reading of the query
    and at most one period after it. *)
Theorem tokenBucket_GetStatus_next_refill_ahead
        (capacity level period anchorTime now : Z) :
  0 < period ->
  0 <= level <= capacity ->
  anchorTime <= now ->
  capacity + (now - anchorTime) <= Int64.max_int ->
  exists nextRefill tb',
    tokenBucket.GetStatus now (tokenBucket.mk capacity level period anchorTime)
    = Done ((Z.min capacity (level + (now - anchorTime) / period), capacity,
             nextRefill), tb')
    /\ now < nextRefill <= now + period.
Proof.
  intros Hperiod Hlevel Hnow Hfit.
  rewrite tokenBucket_GetStatus_in_range by assumption. cbv zeta.
  eexists _, _. split; [reflexivity|].
  pose proof (Z.mod_pos_bound (now - anchorTime) period Hperiod).
  pose proof (Z.div_mod (now - anchorTime) period ltac:(lia)).
  lia.
Qed.

Lemma tokenBucket_GetStatus_next_refill_ahead_witness :
  exists nextRefill tb',
    tokenBucket.GetStatus (2500 * time.Millisecond)
      (tokenBucket.mk 10 5 time.Second 0)
    = Done ((7, 10, nextRefill), tb')
    /\ 2500 * time.Millisecond < nextRefill.
Proof.
  destruct (tokenBucket_GetStatus_next_refill_ahead 10 5 time.Second 0
              (2500 * time.Millisecond)
              ltac:(reflexivity) ltac:(lia)
              ltac:(unfold time.Millisecond; lia)
              ltac:(unfold time.Millisecond, Int64.max_int; lia))
    as (nextRefill & tb' & Hrun & Hlo & _).
  exists nextRefill, tb'. split; [exact Hrun|exact Hlo].
Defined.

(** ** The remote status query *)

Section RemoteStatus.

Lemma TokenBucketRedis_GetStatus_record
      (tbr : TokenBucketRedis.t) (c : redis.Client)
      (capacity level period anchorTime updated now : Z) :
  0 < period ->
  0 <= level <= capacity ->
  anchorTime <= now ->
  capacity + (now - anchorTime) <= Int64.max_int ->
  redis.reachable c = true ->
  redis.get now (TokenBucketRedis.key tbr) c
    = Some (redis.TokenData capacity level period anchorTime updated) ->
  TokenBucketRedis.HasState now tbr c = true
  /\ TokenBucketRedis.GetStatus now tbr c
     = Done (Z.min capacity (level + (now - anchorTime) / period), capacity,
             anchorTime + period).
Proof.
  intros Hperiod Hlevel Hnow Hfit Hreach Hget.
  pose proof (periods_bounds (now - anchorTime) period ltac:(lia) Hperiod)
    as [[Hp0 Hp1] Hp2].
  unfold TokenBucketRedis.HasState, TokenBucketRedis.GetStatus, redis.Get,
    time.UnixNano, time.Add.
  rewrite Hreach, Hget. simpl. split; [reflexivity|].
  destruct (Z.eqb_spec period 0); [lia|].
  unfold Int64.sub, Int64.add.
  rewrite (wrap_id (now - anchorTime))
    by (unfold Int64.in_range, Int64.min_int, Int64.max_int in *; lia).
  rewrite quot_exact by (unfold Int64.max_int in *; lia).
  rewrite wrap_id
    by (unfold Int64.in_range, Int64.min_int, Int64.max_int in *; lia).
  replace (if capacity <? level + (now - anchorTime) / period
           then capacity else level + (now - anchorTime) / period)
    with (Z.min capacity (level + (now - anchorTime) / period))
    by (destruct (Z.ltb_spec capacity (level + (now - anchorTime) / period)); lia).
  reflexivity.
Qed.

Lemma LeakyBucketRedis_GetStatus_record
      (lbr : LeakyBucketRedis.t) (c : redis.Client)
      (capacity level period anchorTime updated now : Z) :
  0 < period ->
  0 <= level <= Int64.max_int ->
  anchorTime <= now ->
  now - anchorTime <= Int64.max_int ->
  redis.reachable c = true ->
  redis.get now (LeakyBucketRedis.key lbr) c
    = Some (redis.LeakyData capacity level period anchorTime updated) ->
  LeakyBucketRedis.HasState now lbr c = true
  /\ LeakyBucketRedis.GetStatus now lbr c
     = Done (level - Z.min ((now - anchorTime) / period) level, capacity,
             anchorTime + period).
Proof.
  intros Hperiod Hlevel Hnow Hfit Hreach Hget.
  pose proof (periods_bounds (now - anchorTime) period ltac:(lia) Hperiod)
    as [[Hp0 Hp1] Hp2].
  unfold LeakyBucketRedis.HasState, LeakyBucketRedis.GetStatus, redis.Get,
    time.UnixNano, time.Add.
  rewrite Hreach, Hget. simpl. split; [reflexivity|].
  destruct (Z.eqb_spec period 0); [lia|].
  unfold Int64.sub.
  rewrite (wrap_id (now - anchorTime))
    by (unfold Int64.in_range, Int64.min_int, Int64.max_int in *; lia).
  rewrite quot_exact by (unfold Int64.max_int in *; lia).
  rewrite wrap_id
    by (unfold Int64.in_range, Int64.min_int, Int64.max_int in *; lia).
  replace (if level - (now - anchorTime) / period <? 0
           then 0 else level - (now - anchorTime) / period)
    with (level - Z.min ((now - anchorTime) / period) level)
    by (destruct (Z.ltb_spec (level - (now - anchorTime) / period) 0); lia).
  reflexivity.
Qed.

End RemoteStatus.





(** ** An idle leaky bucket *)



(** ** A burst at one instant *)

Section Burst.

Lemma tokenBucket_burst_local (capacity period anchorTime now : Z) (G : nat) :
  forall level,
    0 < period ->
    0 <= level <= capacity ->
    capacity < 2 ^ 62 ->
    0 <= anchorTime <= now ->
    now < anchorTime + period ->
    now < 2 ^ 62 ->
    exists trace,
      runTokenLocal (repeat (1, now) G)
        (tokenBucket.mk capacity level period anchorTime) = Done trace
      /\ admitted trace = Nat.min G (Z.to_nat level).
Proof.
  change (2 ^ 62) with 4611686018427387904.
  induction G as [|G IH]; intros level Hperiod Hlevel Hcap Hanchor Hfrac Hnow;
    simpl.
  - exists []. split; reflexivity.
  - rewrite (tokenBucket_TryConsume_step capacity level period anchorTime 1 now)
      by (unfold Int64.max_int, Int64.min_int; lia).
    cbv zeta.
    assert (Hz : (now - anchorTime) / period = 0) by (apply Z.div_small; lia).
    rewrite Hz. change (Z.max 0 0) with 0.
    rewrite Z.add_0_r. replace (Z.min capacity level) with level by lia.
    replace (anchorTime + 0 * period) with anchorTime by lia.
    destruct (Z.leb_spec 1 level) as [Hle|Hgt]; simpl.
    + destruct (IH (level - 1)) as (trace & Hrun & Hadm); try assumption; try lia.
      rewrite Hrun. simpl. eexists; split; [reflexivity|]. simpl.
      rewrite Hadm. replace (Z.to_nat level) with (S (Z.to_nat (level - 1))) by lia.
      reflexivity.
    + destruct (IH level) as (trace & Hrun & Hadm); try assumption; try lia.
      rewrite Hrun. simpl. eexists; split; [reflexivity|]. simpl.
      rewrite Hadm. replace level with 0 by lia. simpl.
      rewrite Nat.min_0_r. reflexivity.
Qed.

End Burst.



(** ** The status query through the service *)

Section StatusReadOnly.

Import RedisRateLimiterService.

Lemma getTokenBucketStatus_read_only key now rrs ts rrs' :
  (1 <= length (RedisManager.clients (redisManager rrs)))%nat ->
  getTokenBucketStatus key now rrs = Done (ts, rrs') -> rrs' = rrs.
Proof.
  intros HN.
  destruct (GetClient_some key (redisManager rrs) HN) as (i & c & Hi & Hc).
  unfold getTokenBucketStatus. rewrite Hi. simpl. unfold deref. rewrite Hc. simpl.
  destruct (TokenBucketRedis.HasState now _ c); simpl.
  - destruct (TokenBucketRedis.GetStatus now _ c) as [[[tl cap] nr]|]; simpl;
      [|discriminate].
    intros [= _ <-]. reflexivity.
  - intros [= _ <-]. reflexivity.
Qed.

Lemma getLeakyBucketStatus_read_only key now rrs ls rrs' :
  (1 <= length (RedisManager.clients (redisManager rrs)))%nat ->
  getLeakyBucketStatus key now rrs = Done (ls, rrs') -> rrs' = rrs.
Proof.
  intros HN.
  destruct (GetClient_some key (redisManager rrs) HN) as (i & c & Hi & Hc).
  unfold getLeakyBucketStatus. rewrite Hi. simpl. unfold deref. rewrite Hc. simpl.
  destruct (LeakyBucketRedis.HasState now _ c); simpl.
  - destruct (LeakyBucketRedis.GetStatus now _ c) as [[[ql cap] nl]|]; simpl;
      [|discriminate].
    intros [= _ <-]. reflexivity.
  - intros [= _ <-]. reflexivity.
Qed.

Lemma GetStatus_read_only key now rrs resp rrs' :
  (1 <= length (RedisManager.clients (redisManager rrs)))%nat ->
  GetStatus key now rrs = Done (resp, rrs') -> rrs' = rrs.
Proof.
  intros HN. unfold GetStatus.
  destruct (getTokenBucketStatus key now rrs) as [[ts rrs1]|] eqn:Hts; simpl;
    [|discriminate].
  apply getTokenBucketStatus_read_only in Hts; [|exact HN]. subst rrs1.
  destruct (getLeakyBucketStatus key now rrs) as [[ls rrs2]|] eqn:Hls; simpl;
    [|discriminate].
  apply getLeakyBucketStatus_read_only in Hls; [|exact HN]. subst rrs2.
  destruct (selectPrimary ts ls). intros [= _ <-]. reflexivity.
Qed.

(** The details attached to a response are those with state. *)
Lemma GetStatus_details key now rrs resp rrs' :
  GetStatus key now rrs = Done (resp, rrs') ->
  exists ts ls,
    models.Algorithm ts = "token_bucket"%string
    /\ models.Algorithm ls = "leaky_bucket"%string
    /\ models.TokenBucketStatus resp
       = (if models.HasState ts then Some ts else None)
    /\ models.LeakyBucketStatus resp
       = (if models.HasState ls then Some ls else None)
    /\ models.RespAlgorithm resp = fst (selectPrimary ts ls).
Proof.
  unfold GetStatus.
  destruct (getTokenBucketStatus key now rrs) as [[ts rrs1]|] eqn:Hts; simpl;
    [|discriminate].
  destruct (getLeakyBucketStatus key now rrs1) as [[ls rrs2]|] eqn:Hls; simpl;
    [|discriminate].
  destruct (getTokenBucketStatus_shape _ _ _ _ _ Hts) as [Hta _].
  destruct (getLeakyBucketStatus_shape _ _ _ _ _ Hls) as [Hla _].
  destruct (selectPrimary ts ls) as [alg st] eqn:Hsel.
  intros [= <- _]. exists ts, ls. simpl.
  split; [exact Hta|]. split; [exact Hla|]. rewrite Hsel.
  repeat split; reflexivity.
Qed.

End StatusReadOnly.

(** X16. The status endpoint is read-only.  On a service with at least
    one instance, a GetStatus that returns leaves the whole service as
    it was: no stored record, no expiry, no fallback bucket and no
    request counter changes (the remote status query reads the record
    and computes the refill without writing it back).  StatusHandler
    answers 405 to every method but GET and 500 to a request without
    user id, without calling the service, and otherwise 200 with the
    response of GetStatus for the user id. *)
Theorem status_endpoint_is_read_only
        (r : Handlers.Request) (now : Z) (rrs rrs' : RedisRateLimiterService.t)
        (response : StatusHandlers.Response) :
  (1 <= length (RedisManager.clients (RedisRateLimiterService.redisManager rrs)))%nat ->
  StatusHandlers.StatusHandler r now rrs = Done (response, rrs') ->
  rrs' = rrs
  /\ (Handlers.Method r <> "GET"%string ->
      response = StatusHandlers.SendError 405 "Only GET method allowed")
  /\ (Handlers.Method r = "GET"%string -> Handlers.UserID r = ""%string ->
      response = StatusHandlers.SendError 500 "Internal server error")
  /\ (Handlers.Method r = "GET"%string -> Handlers.UserID r <> ""%string ->
      exists body,
        response = StatusHandlers.SendJSON 200 body
        /\ RedisRateLimiterService.GetStatus (Handlers.UserID r) now rrs
           = Done (body, rrs)).
Proof.
  intros HN. unfold StatusHandlers.StatusHandler.
  destruct (String.eqb_spec (Handlers.Method r) "GET") as [Hm|Hm]; simpl.
  - destruct (String.eqb_spec (Handlers.UserID r) "") as [Hu|Hu].
    + intros [= <- <-]. repeat split; try congruence.
    + destruct (RedisRateLimiterService.GetStatus (Handlers.UserID r) now rrs)
        as [[body s]|] eqn:Hget; simpl; [|discriminate].
      pose proof (GetStatus_read_only _ _ _ _ _ HN Hget) as ->.
      intros [= <- <-]. repeat split; try congruence.
      intros _ _. exists body. split; reflexivity.
  - intros [= <- <-]. repeat split; try congruence.
Qed.

Lemma status_endpoint_is_read_only_witness :
  let s0 := freshService 10 time.Second in
  let s :=
    match RedisRateLimiterService.Acquire "user" 5 "token_bucket" 0 s0 with
    | Done (_, s) => s
    | Panicked => s0
    end in
  let run :=
    StatusHandlers.StatusHandler (Handlers.mkRequest "GET" "user" None)
      (3 * time.Second) s in
  match run with
  | Done (_, s') => s' = s
  | Panicked => False
  end.
Proof.
  intros s0 s run.
  pose (response := match run with
                    | Done (x, _) => x
                    | Panicked => StatusHandlers.SendError 0 ""
                    end).
  pose (s' := match run with Done (_, x) => x | Panicked => s end).
  assert (Hrun : run = Done (response, s')) by (vm_compute; reflexivity).
  pose proof (proj1 (status_endpoint_is_read_only
                       (Handlers.mkRequest "GET" "user" None) (3 * time.Second)
                       s s' response ltac:(vm_compute; constructor) Hrun)) as H.
  rewrite Hrun. exact H.
Defined.



(** ** Request defaults *)

Section Defaults.

Import RedisRateLimiterService.

(** [Acquire] looks at the algorithm name only to tell "leaky_bucket"
    from everything else. *)
Lemma Acquire_algorithm_dispatch key n algorithm algorithm' now rrs :
  String.eqb algorithm "leaky_bucket" = String.eqb algorithm' "leaky_bucket" ->
  Acquire key n algorithm now rrs = Acquire key n algorithm' now rrs.
Proof.
  intros H. unfold Acquire, acquireRedis, acquireInMemoryFallback.
  rewrite H. reflexivity.
Qed.

End Defaults.

(** X18. Validate and the acquire endpoint set the same defaults.
    Validate leaves a request with at least one token and with the
    algorithm "token_bucket" or "leaky_bucket" (every other name, the
    empty one included, becomes "token_bucket"), and validating twice
    changes nothing more.  AcquireHandler, which does not call Validate,
    answers every request exactly as it answers the validated request:
    its own token default and the service's dispatch on the algorithm
    name amount to the same normalisation. *)
Theorem AcquireHandler_agrees_with_Validate
        (r : Handlers.Request) (req : models.AcquireRequest) (now : Z)
        (rrs : RedisRateLimiterService.t) :
  Handlers.Body r = Some req ->
  let v := AcquireRequest.Validate req in
  1 <= models.Tokens v
  /\ (models.ReqAlgorithm v = "token_bucket"%string
      \/ models.ReqAlgorithm v = "leaky_bucket"%string)
  /\ (models.ReqAlgorithm req = "leaky_bucket"%string <->
      models.ReqAlgorithm v = "leaky_bucket"%string)
  /\ AcquireRequest.Validate v = v
  /\ Handlers.AcquireHandler r now rrs
     = Handlers.AcquireHandler
         (Handlers.mkRequest (Handlers.Method r) (Handlers.UserID r) (Some v))
         now rrs.
Proof.
  intros Hbody v. subst v. unfold AcquireRequest.Validate.
  destruct req as [k t a]. simpl.
  set (t' := if t <=? 0 then 1 else t).
  assert (Ht' : 1 <= t') by (subst t'; destruct (Z.leb_spec t 0); lia).
  assert (Hkeep : (if t' <=? 0 then 1 else t') = t')
    by (destruct (Z.leb_spec t' 0); lia).
  split; [exact Ht'|].
  destruct (String.eqb_spec a "") as [->|Hne]; simpl.
  - split; [left; reflexivity|]. split; [split; discriminate|].
    split; [rewrite Hkeep; reflexivity|].
    unfold Handlers.AcquireHandler. rewrite Hbody. simpl. fold t'.
    rewrite Hkeep. reflexivity.
  - destruct (String.eqb_spec a "token_bucket") as [->|Hnt]; simpl.
    + split; [left; reflexivity|]. split; [split; discriminate|].
      split; [rewrite Hkeep; reflexivity|].
      unfold Handlers.AcquireHandler. rewrite Hbody. simpl. fold t'.
      rewrite Hkeep. reflexivity.
    + destruct (String.eqb_spec a "leaky_bucket") as [->|Hnl]; simpl.
      * split; [right; reflexivity|]. split; [split; reflexivity|].
        split; [rewrite Hkeep; reflexivity|].
        unfold Handlers.AcquireHandler. rewrite Hbody. simpl. fold t'.
        rewrite Hkeep. reflexivity.
      * split; [left; reflexivity|]. split; [split; [congruence|discriminate]|].
        split; [rewrite Hkeep; reflexivity|].
        unfold Handlers.AcquireHandler. rewrite Hbody. simpl. fold t'.
        rewrite Hkeep.
        apply String.eqb_neq in Hne. rewrite Hne.
        destruct (negb (String.eqb (Handlers.Method r) "POST")); [reflexivity|].
        destruct (String.eqb (Handlers.UserID r) ""); [reflexivity|].
        rewrite (Acquire_algorithm_dispatch (Handlers.UserID r) t' a
                   "token_bucket" now rrs); [reflexivity|].
        apply String.eqb_neq in Hnl. rewrite Hnl. reflexivity.
Qed.

Lemma AcquireHandler_agrees_with_Validate_witness :
  let s := freshService 10 time.Second in
  let r (body : models.AcquireRequest) := Handlers.mkRequest "POST" "user" (Some body) in
  Handlers.AcquireHandler (r (models.mkAcquireRequest "" (-2) "sliding_window")) 0 s
  = Handlers.AcquireHandler (r (models.mkAcquireRequest "" 1 "token_bucket")) 0 s.
Proof.
  intros s r.
  exact (proj2 (proj2 (proj2 (proj2
    (AcquireHandler_agrees_with_Validate
       (r (models.mkAcquireRequest "" (-2) "sliding_window"))
       (models.mkAcquireRequest "" (-2) "sliding_window") 0 s
       ltac:(reflexivity)))))).
Defined.

(** X19. The helper methods on a response of GetStatus.  For every
    response GetStatus returns, the algorithm count equals the number of
    active algorithms listed, the response is multi-algorithm exactly
    when that count is 2, a detail status is attached exactly when its
    algorithm has state, the active algorithms are listed token bucket
    first, the summary algorithm is one of the active algorithms
    whenever there is one, and it is "token_bucket" when there is
    none. *)
Theorem GetStatus_response_helpers
        (key : string) (now : Z) (rrs rrs' : RedisRateLimiterService.t)
        (resp : models.StatusResponse) :
  RedisRateLimiterService.GetStatus key now rrs = Done (resp, rrs') ->
  StatusResponse.GetAlgorithmCount resp
  = Z.of_nat (length (StatusResponse.GetActiveAlgorithms resp))
  /\ StatusResponse.IsMultiAlgorithm resp
     = (StatusResponse.GetAlgorithmCount resp =? 2)
  /\ StatusResponse.HasTokenBucketState resp
     = match models.TokenBucketStatus resp with Some _ => true | None => false end
  /\ StatusResponse.HasLeakyBucketState resp
     = match models.LeakyBucketStatus resp with Some _ => true | None => false end
  /\ StatusResponse.GetActiveAlgorithms resp
     = (if StatusResponse.HasTokenBucketState resp then ["token_bucket"%string] else [])
       ++ (if StatusResponse.HasLeakyBucketState resp then ["leaky_bucket"%string] else [])
  /\ (0 < StatusResponse.GetAlgorithmCount resp ->
      In (models.RespAlgorithm resp) (StatusResponse.GetActiveAlgorithms resp))
  /\ (StatusResponse.GetAlgorithmCount resp = 0 ->
      models.RespAlgorithm resp = "token_bucket"%string).
Proof.
  intros Hrun.
  destruct (GetStatus_details _ _ _ _ _ Hrun) as (ts & ls & Hta & Hla & HT & HL & HA).
  unfold StatusResponse.GetAlgorithmCount, StatusResponse.GetActiveAlgorithms,
    StatusResponse.IsMultiAlgorithm, StatusResponse.HasTokenBucketState,
    StatusResponse.HasLeakyBucketState, StatusResponse.hasState.
  rewrite HT, HL, HA. unfold RedisRateLimiterService.selectPrimary.
  destruct (models.HasState ts) eqn:Ht; destruct (models.HasState ls) eqn:Hl;
    simpl; rewrite ?Ht, ?Hl; simpl.
  - repeat split; try reflexivity; try lia.
    intros _.
    destruct (models.TokensLeft ts <? models.Capacity ts); simpl; [auto|].
    destruct (models.TokensLeft ls <? models.Capacity ls); simpl; auto.
  - repeat split; try reflexivity; try lia. intros _. simpl. auto.
  - repeat split; try reflexivity; try lia. intros _. simpl. auto.
  - repeat split; try reflexivity; try lia.
Qed.

Lemma GetStatus_response_helpers_witness :
  let s0 := freshService 10 time.Second in
  let s :=
    match RedisRateLimiterService.Acquire "user" 5 "leaky_bucket" 0 s0 with
    | Done (_, s) => s
    | Panicked => s0
    end in
  match RedisRateLimiterService.GetStatus "user" 0 s with
  | Done (resp, _) =>
      StatusResponse.GetAlgorithmCount resp
      = Z.of_nat (length (StatusResponse.GetActiveAlgorithms resp))
  | Panicked => False
  end.
Proof.
  intros s0 s.
  pose (run := RedisRateLimiterService.GetStatus "user" 0 s).
  pose (resp := match run with
                | Done (x, _) => x
                | Panicked =>
                    models.mkStatusResponse "" "" 0 0 0 0 false None None
                end).
  pose (s' := match run with Done (_, x) => x | Panicked => s end).
  assert (Hrun : run = Done (resp, s')) by (vm_compute; reflexivity).
  pose proof (proj1 (GetStatus_response_helpers "user" 0 s s' resp Hrun)) as H.
  change (RedisRateLimiterService.GetStatus "user" 0 s) with run.
  rewrite Hrun. exact H.
Defined.

(** ** Reports of the shard router *)

Section Reports.

Import RedisManagerReports.

Lemma Sprintf_d_inj prefix i j :
  fmt.Sprintf_d prefix i = fmt.Sprintf_d prefix j -> i = j.
Proof.
  unfold fmt.Sprintf_d. intros H.
  apply (inj pretty). exact (append_cancel_l _ _ _ H).
Qed.

(** Names the loop has not reached are left alone. *)
Lemma healthFrom_other clients :
  forall i status name,
    (forall k : nat, (k < length clients)%nat ->
                     name <> fmt.Sprintf_d "redis-" (i + Z.of_nat k + 1)) ->
    healthFrom i clients status !! name = status !! name.
Proof.
  induction clients as [|c cs IH]; intros i status name Hname; simpl;
    [reflexivity|].
  rewrite IH.
  - apply lookup_insert_ne. intros Heq.
    apply (Hname 0%nat); [simpl; lia|].
    rewrite <- Heq. f_equal. lia.
  - intros k Hk. replace (i + 1 + Z.of_nat k + 1)
      with (i + Z.of_nat (S k) + 1) by lia.
    apply Hname. simpl. lia.
Qed.

Lemma healthFrom_lookup clients :
  forall i status (j : nat) c,
    clients !! j = Some c ->
    healthFrom i clients status !! fmt.Sprintf_d "redis-" (i + Z.of_nat j + 1)
    = Some (redis.reachable c).
Proof.
  induction clients as [|c0 cs IH]; intros i status j c Hj; [discriminate|].
  destruct j as [|j]; cbn [healthFrom].
  - injection Hj as ->. rewrite healthFrom_other.
    + replace (i + Z.of_nat 0 + 1) with (i + 1) by lia. apply lookup_insert_eq.
    + intros k _ Heq. apply Sprintf_d_inj in Heq. lia.
  - replace (i + Z.of_nat (S j) + 1) with (i + 1 + Z.of_nat j + 1) by lia.
    apply IH. exact Hj.
Qed.

End Reports.

(** X20. The health report has one entry per instance.  For every
    manager, GetHealthStatus maps "redis-<j+1>" to whether instance j
    answers the ping, for each index j of the client list, and holds no
    other name. *)
Theorem GetHealthStatus_reports_each_instance (rm : RedisManager.t) :
  (forall (j : nat) (c : redis.Client),
      RedisManager.clients rm !! j = Some c ->
      RedisManagerReports.GetHealthStatus rm
        !! fmt.Sprintf_d "redis-" (Z.of_nat j + 1)
      = Some (redis.reachable c))
  /\ (forall name : string,
         (forall j : nat, (j < length (RedisManager.clients rm))%nat ->
                          name <> fmt.Sprintf_d "redis-" (Z.of_nat j + 1)) ->
         RedisManagerReports.GetHealthStatus rm !! name = None)
  /\ RedisManagerReports.GetHealthStatus
       (RedisManager.mk [redis.mkClient true ∅; redis.mkClient false ∅])
     = <["redis-2"%string := false]> (<["redis-1"%string := true]> ∅).
Proof.
  unfold RedisManagerReports.GetHealthStatus. split; [|split].
  - intros j c Hj.
    exact (healthFrom_lookup (RedisManager.clients rm) 0 ∅ j c Hj).
  - intros name Hname.
    rewrite healthFrom_other; [apply lookup_empty|].
    intros k Hk. apply Hname. exact Hk.
  - vm_compute. reflexivity.
Qed.

Lemma GetHealthStatus_reports_each_instance_witness :
  RedisManagerReports.GetHealthStatus
    (RedisManager.mk [redis.mkClient true ∅; redis.mkClient false ∅])
    !! "redis-2"%string
  = Some false.
Proof.
  exact (proj1 (GetHealthStatus_reports_each_instance
                  (RedisManager.mk [redis.mkClient true ∅; redis.mkClient false ∅]))
           1%nat (redis.mkClient false ∅) ltac:(reflexivity)).
Defined.

Section Distribution.

Import RedisManagerReports.

Lemma GetClientIndex_mod userID rm :
  (1 <= length (RedisManager.clients rm))%nat ->
  let N := Z.of_nat (length (RedisManager.clients rm)) in
  RedisManager.GetClientIndex userID rm = Done (crc32.ChecksumIEEE userID mod N)
  /\ 0 <= crc32.ChecksumIEEE userID mod N < N
  /\ crc32.ChecksumIEEE userID mod N < 2 ^ 32.
Proof.
  intros HN N.
  pose proof (ChecksumIEEE_uint32 userID) as Hu. unfold uint32 in Hu.
  assert (HNpos : 0 < N) by (subst N; lia).
  pose proof (Z.mod_pos_bound (crc32.ChecksumIEEE userID) N HNpos) as Hidx.
  pose proof (Z.mod_le (crc32.ChecksumIEEE userID) N ltac:(lia) HNpos) as Hle.
  unfold RedisManager.GetClientIndex. fold N.
  destruct (Z.eqb_spec N 0); [lia|].
  rewrite Z.rem_mod_nonneg by lia.
  repeat split; try lia.
Qed.

Lemma lookup0_increment name name' counts :
  0 <= lookup0 counts name < Int64.max_int ->
  lookup0 (increment name counts) name'
  = lookup0 counts name' + (if String.eqb name name' then 1 else 0).
Proof.
  intros Hr. unfold increment, lookup0 in *.
  destruct (String.eqb_spec name name') as [<-|Hne].
  - rewrite lookup_insert_eq. simpl. unfold Int64.add.
    apply wrap_id. unfold Int64.in_range, Int64.min_int, Int64.max_int in *. lia.
  - rewrite lookup_insert_ne by exact Hne. lia.
Qed.

Lemma distributionFrom_spec rm userIDs :
  (1 <= length (RedisManager.clients rm))%nat ->
  let N := Z.of_nat (length (RedisManager.clients rm)) in
  forall counts k,
    (forall name, 0 <= lookup0 counts name <= k) ->
    k + Z.of_nat (length userIDs) <= Int64.max_int ->
    exists res,
      distributionFrom userIDs rm counts = Done res
      /\ (forall i, 0 <= i < N ->
                    lookup0 res (fmt.Sprintf_d "redis-" (i + 1))
                    = lookup0 counts (fmt.Sprintf_d "redis-" (i + 1))
                      + routedTo i N userIDs)
      /\ (forall name,
             (forall i, 0 <= i < N -> name <> fmt.Sprintf_d "redis-" (i + 1)) ->
             res !! name = counts !! name).
Proof.
  intros HN N.
  induction userIDs as [|u us IH]; intros counts k Hk Hfit; simpl.
  - exists counts. split; [reflexivity|]. split; [intros; lia|reflexivity].
  - destruct (GetClientIndex_mod u rm HN) as (Hidx & Hrange & H32).
    fold N in Hidx, Hrange, H32. rewrite Hidx. simpl.
    set (idx := crc32.ChecksumIEEE u mod N) in *.
    change (2 ^ 32) with 4294967296 in H32.
    assert (Hadd : Int64.add idx 1 = idx + 1).
    { unfold Int64.add. apply wrap_id.
      unfold Int64.in_range, Int64.min_int, Int64.max_int. lia. }
    rewrite Hadd.
    assert (Hinc : forall name,
               lookup0 (increment (fmt.Sprintf_d "redis-" (idx + 1)) counts) name
               = lookup0 counts name
                 + (if String.eqb (fmt.Sprintf_d "redis-" (idx + 1)) name
                    then 1 else 0)).
    { intros name. apply lookup0_increment.
      specialize (Hk (fmt.Sprintf_d "redis-" (idx + 1))).
      simpl in Hfit. lia. }
    destruct (IH (increment (fmt.Sprintf_d "redis-" (idx + 1)) counts) (k + 1))
      as (res & Hrun & Hcount & Hother).
    + intros name. rewrite Hinc. specialize (Hk name).
      destruct (String.eqb _ name); lia.
    + simpl in Hfit. lia.
    + exists res. split; [exact Hrun|]. split.
      * intros i Hi. rewrite (Hcount i Hi), Hinc.
        destruct (String.eqb_spec (fmt.Sprintf_d "redis-" (idx + 1))
                    (fmt.Sprintf_d "redis-" (i + 1))) as [Heq|Hne].
        -- apply Sprintf_d_inj in Heq.
           destruct (Z.eqb_spec idx i); lia.
        -- destruct (Z.eqb_spec idx i) as [->|]; [congruence|lia].
      * intros name Hname. rewrite (Hother name Hname).
        unfold increment. apply lookup_insert_ne.
        intros Heq. apply (Hname idx Hrange). symmetry. exact Heq.
Qed.

End Distribution.

(** X21. The distribution report counts each user id at the instance it
    is routed to.  For a manager with N >= 1 instances and fewer than
    2^63 - 1 user ids, GetDistributionCount returns, under
    "redis-<i+1>" for each shard index i, the number of the given user
    ids whose CRC-32 modulo N is i (a name that is absent counts 0), and
    holds no other name.  Without instances it panics on the first user
    id. *)
Theorem GetDistributionCount_counts_routing
        (rm : RedisManager.t) (userIDs : list string) :
  (1 <= length (RedisManager.clients rm))%nat ->
  Z.of_nat (length userIDs) <= Int64.max_int ->
  let N := Z.of_nat (length (RedisManager.clients rm)) in
  (exists counts,
      RedisManagerReports.GetDistributionCount userIDs rm = Done counts
      /\ (forall i, 0 <= i < N ->
                    lookup0 counts (fmt.Sprintf_d "redis-" (i + 1))
                    = routedTo i N userIDs)
      /\ (forall name,
             (forall i, 0 <= i < N -> name <> fmt.Sprintf_d "redis-" (i + 1)) ->
             counts !! name = None))
  /\ (forall userID,
         RedisManagerReports.GetDistributionCount (userID :: userIDs)
           (RedisManager.mk [])
         = Panicked).
Proof.
  intros HN Hlen N. split.
  - destruct (distributionFrom_spec rm userIDs HN ∅ 0) as (res & Hrun & Hcount & Hother).
    + intros name. unfold lookup0. rewrite lookup_empty. simpl. lia.
    + lia.
    + exists res. split; [exact Hrun|]. split.
      * intros i Hi. rewrite (Hcount i Hi). unfold lookup0 at 1.
        rewrite lookup_empty. reflexivity.
      * intros name Hname. rewrite (Hother name Hname). apply lookup_empty.
  - intros userID. reflexivity.
Qed.

Lemma GetDistributionCount_counts_routing_witness :
  let shard := redis.mkClient true ∅ in
  exists counts,
    RedisManagerReports.GetDistributionCount ["fallback_user"; "user"; "alice"]
      (RedisManager.mk [shard; shard]) = Done counts
    /\ lookup0 counts "redis-1" + lookup0 counts "redis-2" = 3.
Proof.
  intros shard.
  destruct (proj1 (GetDistributionCount_counts_routing
                     (RedisManager.mk [shard; shard])
                     ["fallback_user"; "user"; "alice"]
                     ltac:(simpl; lia) ltac:(simpl; unfold Int64.max_int; lia)))
    as (counts & Hrun & Hcount & _).
  exists counts. split; [exact Hrun|].
  pose proof (Hcount 0 ltac:(simpl; lia)) as H0.
  pose proof (Hcount 1 ltac:(simpl; lia)) as H1.
  change (fmt.Sprintf_d "redis-" (0 + 1)) with "redis-1"%string in H0.
  change (fmt.Sprintf_d "redis-" (1 + 1)) with "redis-2"%string in H1.
  rewrite H0, H1. vm_compute. reflexivity.
Defined.

(** ** Masking the secret in the start-up log *)

Section Mask.

Lemma length_append (a b : string) :
  String.length (a ++ b) = (String.length a + String.length b)%nat.
Proof. induction a as [|c a IH]; simpl; [reflexivity|]. rewrite IH. reflexivity. Qed.

Lemma append_assoc (a b c : string) : ((a ++ b) ++ c = a ++ (b ++ c))%string.
Proof.
  induction a as [|x a IH]; [reflexivity|].
  change (String x ((a ++ b) ++ c) = String x (a ++ (b ++ c)))%string.
  f_equal. exact IH.
Qed.

Lemma substring_whole (b : string) : substring 0 (String.length b) b = b.
Proof. induction b as [|c b IH]; simpl; [reflexivity|]. rewrite IH. reflexivity. Qed.

Lemma substring_prefix (a s : string) :
  substring 0 (String.length a) (a ++ s) = a.
Proof.
  induction a as [|c a IH]; simpl.
  - destruct s; reflexivity.
  - rewrite IH. reflexivity.
Qed.

Lemma substring_skip (a s : string) (m : nat) :
  substring (String.length a) m (a ++ s) = substring 0 m s.
Proof. induction a as [|c a IH]; simpl; [reflexivity|exact IH]. Qed.

End Mask.

(** X22. maskSecret never shows the middle of a secret.  A secret of at
    most 6 bytes is printed as "****".  A longer secret, split into its
    first three bytes, its last three bytes and the bytes between, is
    printed as the first three, "****" and the last three: the result
    does not depend on the bytes between, nor on how many they are, and
    is always 10 bytes long. *)
Theorem maskSecret_hides_the_middle (first middle last : string) :
  String.length first = 3%nat ->
  String.length last = 3%nat ->
  middle <> ""%string ->
  main.maskSecret (first ++ middle ++ last) = (first ++ "****" ++ last)%string
  /\ String.length (main.maskSecret (first ++ middle ++ last)) = 10%nat
  /\ (forall secret, (String.length secret <= 6)%nat ->
                     main.maskSecret secret = "****"%string).
Proof.
  intros Hf Hl Hm.
  assert (Hmlen : (1 <= String.length middle)%nat).
  { destruct middle; [congruence|simpl; lia]. }
  assert (Hmask : main.maskSecret (first ++ middle ++ last)
                  = (first ++ "****" ++ last)%string).
  { assert (H1 : substring 0 3 (first ++ middle ++ last) = first).
    { rewrite <- Hf. apply substring_prefix. }
    assert (H2 : substring (String.length (first ++ middle ++ last) - 3) 3
                   (first ++ middle ++ last) = last).
    { replace (String.length (first ++ middle ++ last) - 3)%nat
        with (String.length (first ++ middle))
        by (rewrite !length_append; lia).
      rewrite <- append_assoc, substring_skip, <- Hl.
      apply substring_whole. }
    unfold main.maskSecret. rewrite H1, H2.
    destruct (Nat.leb_spec (String.length (first ++ middle ++ last)) 6)
      as [Hle|_]; [|reflexivity].
    rewrite !length_append in Hle. lia. }
  split; [exact Hmask|]. split.
  - rewrite Hmask, !length_append, Hf, Hl. reflexivity.
  - intros secret Hs. unfold main.maskSecret.
    destruct (Nat.leb_spec (String.length secret) 6); [reflexivity|lia].
Qed.

Lemma maskSecret_hides_the_middle_witness :
  main.maskSecret "your-secret-key-change-in-production" = "you****ion"%string.
Proof.
  exact (proj1 (maskSecret_hides_the_middle "you"
                  "r-secret-key-change-in-product" "ion"
                  ltac:(reflexivity) ltac:(reflexivity) ltac:(discriminate))).
Defined.

(** ** The in-memory fallback *)

Section Fallback.

Import RedisRateLimiterService.

Lemma Sub_same now : time.Sub now now = 0.
Proof. unfold time.Sub. rewrite Z.sub_diag. reflexivity. Qed.

(** A bucket made at [now] and used at [now] admits every request from
    0 to its capacity. *)
Lemma tokenBucket_TryConsume_new capacity period n now r tb :
  0 <= n <= capacity ->
  tokenBucket.TryConsume n now (tokenBucket.NewTokenBucket capacity period now)
  = Done (r, tb) ->
  r = true.
Proof.
  intros Hn. unfold tokenBucket.TryConsume, tokenBucket.refill,
    tokenBucket.NewTokenBucket. simpl.
  destruct (Z.ltb_spec n 0); [lia|].
  rewrite Sub_same.
  destruct (period =? 0); simpl; [discriminate|].
  destruct (Z.leb_spec n capacity); [|lia].
  intros [= <- _]. reflexivity.
Qed.

Lemma leakyBucket_TryAdd_new capacity period n now r lb :
  0 <= n <= capacity -> capacity <= Int64.max_int ->
  leakyBucket.TryAdd n now (leakyBucket.NewLeakyBucket capacity period now)
  = Done (r, lb) ->
  r = true.
Proof.
  intros Hn Hcap. unfold leakyBucket.TryAdd, leakyBucket.leak,
    leakyBucket.NewLeakyBucket. simpl.
  destruct (Z.ltb_spec n 0); [lia|].
  rewrite Sub_same.
  destruct (period =? 0); simpl; [discriminate|].
  replace (Int64.add 0 n) with n.
  - destruct (Z.ltb_spec capacity n); [lia|].
    intros [= <- _]. reflexivity.
  - unfold Int64.add. rewrite Z.add_0_l. symmetry. apply wrap_id.
    unfold Int64.in_range, Int64.min_int, Int64.max_int in *. lia.
Qed.

End Fallback.

(** X23. The in-memory fallback keeps one bucket per key and per
    algorithm.  A call of acquireInMemoryFallback that returns changes
    neither the Redis instances, nor the request counters, nor the
    configuration, nor the bucket of any other key; a call for
    "leaky_bucket" leaves the token-bucket map as it was and every other
    algorithm name leaves the leaky-bucket map as it was; afterwards the
    key has a bucket in the map of the algorithm used.  The first call
    for a key that has no bucket yet is allowed whenever it asks for
    between 0 and the default capacity (at most 2^63 - 1). *)
Theorem acquireInMemoryFallback_is_per_key
        (key : string) (n : Z) (algorithm : string) (now : Z)
        (rrs rrs' : RedisRateLimiterService.t) (r : bool) :
  RedisRateLimiterService.acquireInMemoryFallback key n algorithm now rrs
  = Done (r, rrs') ->
  RedisRateLimiterService.redisManager rrs' = RedisRateLimiterService.redisManager rrs
  /\ RedisRateLimiterService.metrics rrs' = RedisRateLimiterService.metrics rrs
  /\ RedisRateLimiterService.config rrs' = RedisRateLimiterService.config rrs
  /\ (forall key' : string, key' <> key ->
        RedisRateLimiterService.tokenBuckets rrs' !! key'
        = RedisRateLimiterService.tokenBuckets rrs !! key'
        /\ RedisRateLimiterService.leakyBuckets rrs' !! key'
           = RedisRateLimiterService.leakyBuckets rrs !! key')
  /\ (if String.eqb algorithm "leaky_bucket"
      then RedisRateLimiterService.tokenBuckets rrs'
           = RedisRateLimiterService.tokenBuckets rrs
           /\ is_Some (RedisRateLimiterService.leakyBuckets rrs' !! key)
      else RedisRateLimiterService.leakyBuckets rrs'
           = RedisRateLimiterService.leakyBuckets rrs
           /\ is_Some (RedisRateLimiterService.tokenBuckets rrs' !! key))
  /\ (RedisRateLimiterService.tokenBuckets rrs !! key = None ->
      RedisRateLimiterService.leakyBuckets rrs !! key = None ->
      0 <= n <= RedisRateLimiterService.DefaultCapacity rrs ->
      RedisRateLimiterService.DefaultCapacity rrs <= Int64.max_int ->
      r = true).
Proof.
  unfold RedisRateLimiterService.acquireInMemoryFallback,
    RedisRateLimiterService.getOrCreateLeakyBucket,
    RedisRateLimiterService.getOrCreateTokenBucket.
  destruct (String.eqb algorithm "leaky_bucket").
  - destruct (RedisRateLimiterService.leakyBuckets rrs !! key) as [b|] eqn:Hb.
    + destruct (leakyBucket.TryAdd n now b) as [[r0 b']|] eqn:Hrun; simpl;
        [|discriminate].
      intros [= <- <-]. simpl.
      split; [reflexivity|]. split; [reflexivity|]. split; [reflexivity|].
      split; [|split].
      * intros key' Hne. split; [reflexivity|].
        apply lookup_insert_ne. congruence.
      * split; [reflexivity|]. rewrite lookup_insert_eq. eexists; reflexivity.
      * intros _ Hnone. congruence.
    + destruct (leakyBucket.TryAdd n now _) as [[r0 b']|] eqn:Hrun; simpl;
        [|discriminate].
      intros [= <- <-]. simpl.
      split; [reflexivity|]. split; [reflexivity|]. split; [reflexivity|].
      split; [|split].
      * intros key' Hne. split; [reflexivity|].
        rewrite !lookup_insert_ne by congruence. reflexivity.
      * split; [reflexivity|]. rewrite lookup_insert_eq. eexists; reflexivity.
      * intros _ _ Hn Hcap.
        exact (leakyBucket_TryAdd_new _ _ _ _ _ _ Hn Hcap Hrun).
  - destruct (RedisRateLimiterService.tokenBuckets rrs !! key) as [b|] eqn:Hb.
    + destruct (tokenBucket.TryConsume n now b) as [[r0 b']|] eqn:Hrun; simpl;
        [|discriminate].
      intros [= <- <-]. simpl.
      split; [reflexivity|]. split; [reflexivity|]. split; [reflexivity|].
      split; [|split].
      * intros key' Hne. split; [|reflexivity].
        apply lookup_insert_ne. congruence.
      * split; [reflexivity|]. rewrite lookup_insert_eq. eexists; reflexivity.
      * intros Hnone. congruence.
    + destruct (tokenBucket.TryConsume n now _) as [[r0 b']|] eqn:Hrun; simpl;
        [|discriminate].
      intros [= <- <-]. simpl.
      split; [reflexivity|]. split; [reflexivity|]. split; [reflexivity|].
      split; [|split].
      * intros key' Hne. split; [|reflexivity].
        rewrite !lookup_insert_ne by congruence. reflexivity.
      * split; [reflexivity|]. rewrite lookup_insert_eq. eexists; reflexivity.
      * intros _ _ Hn _.
        exact (tokenBucket_TryConsume_new _ _ _ _ _ _ Hn Hrun).
Qed.

Lemma acquireInMemoryFallback_is_per_key_witness :
  let s := freshService 10 time.Second in
  match RedisRateLimiterService.acquireInMemoryFallback "user" 4 "leaky_bucket" 0 s with
  | Done (_, s') =>
      RedisRateLimiterService.redisManager s' = RedisRateLimiterService.redisManager s
  | Panicked => False
  end.
Proof.
  intros s.
  pose (run := RedisRateLimiterService.acquireInMemoryFallback
                 "user" 4 "leaky_bucket" 0 s).
  pose (r := match run with Done (x, _) => x | Panicked => false end).
  pose (s' := match run with Done (_, x) => x | Panicked => s end).
  assert (Hrun : run = Done (r, s')) by (vm_compute; reflexivity).
  pose proof (proj1 (acquireInMemoryFallback_is_per_key
                       "user" 4 "leaky_bucket" 0 s s' r Hrun)) as H.
  change (RedisRateLimiterService.acquireInMemoryFallback
            "user" 4 "leaky_bucket" 0 s) with run.
  rewrite Hrun. exact H.
Defined.
